(** * completion-gpt-api: the conversation cache and the message assembler

    A shallow embedding of the [ChatCompletionAPI] class
    (constructor, [sendMessage], [getMessageHistory], [setMessageHistory],
    [buildMessage]), of [types.ts] and of [exceptions/completion-error.ts].

    Modelling choices, all taken from the source:
    - JavaScript arrays are mutable objects.  [getMessageHistory] hands out
      either the very array kept in [_messagesCache] or the fresh copy that
      [Array.prototype.slice] makes, and [sendMessage] pushes onto whatever
      it is handed.  Arrays therefore live in a store indexed by locations,
      and the cache maps a conversation id to a value that may be an array.
    - [_messagesCache] is a plain object used as a dictionary.  Reading an
      id that is not an own property finds what [Object.prototype] has
      under that name (a function, or the prototype itself for
      ["__proto__"]); assigning to ["__proto__"] replaces the prototype.
      Both are modelled.  What an id reads through a prototype that has
      been replaced depends on tables of the engine ([Array.prototype]):
      such a read is marked [Unmodelled], and nothing is claimed of it.
    - The objects handed to [buildMessage] and sent are JavaScript objects:
      the per-call options are spread over [name], [content] and [role],
      and a key of the same name replaces the value.
    - The OpenAI client is an external collaborator.  Each [sendMessage]
      takes the outcome of its single [createChatCompletion] call as an
      argument, and the request handed to the client is recorded in the
      store, so that what is sent can be observed.  Whether
      [JSON.stringify] can serialise the response object (it cannot when
      the object refers to itself) is part of the outcome.
    - The messages of the errors the engine raises are V8's.
    - [maxMessages] is an integer ([Z]); numbers that are only carried
      around (temperature and the like) are exact rationals.
    - One [sendMessage] runs from start to end; interleavings of two calls
      suspended on [await] are not modelled. *)

From Stdlib Require Import ZArith QArith_base.
From stdpp Require Import base option list strings gmap.

Local Open Scope string_scope.
Local Open Scope Z_scope.
Local Open Scope list_scope.

(** ** types.ts *)

Inductive Role := user | assistant | system.

#[global] Instance Role_eq_dec : EqDecision Role.
Proof. solve_decision. Defined.

(** The string a role is. *)
Definition role_string (r : Role) : string :=
  match r with
  | user => "user"
  | assistant => "assistant"
  | system => "system"
  end.

(** Values of properties: of completion parameters ([model],
    [temperature], [stop], ...) and of the fields of a message sent. *)
#[local] Unset Elimination Schemes.
Inductive ParamValue :=
| PUndefined
| PNull
| PBoolean (b : bool)
| PNumber (q : Q)
| PString (s : string)
| PArray (items : list ParamValue)
| PObject (fields : list (string * ParamValue)).
#[local] Set Elimination Schemes.

(** Whether a value counts as true in [v || w]: [undefined], [null],
    [false], [0] and the empty string do not. *)
Definition truthy (v : ParamValue) : bool :=
  match v with
  | PUndefined | PNull => false
  | PBoolean b => b
  | PNumber q => negb (Qnum q =? 0)
  | PString "" => false
  | PString _ => true
  | PArray _ | PObject _ => true
  end.

(** [ChatCompletionOpts]: a partial object of completion parameters, keyed by
    the parameter's name.  Its type leaves out [messages] and [n] and has no
    [name], [content] or [role] key; an object passed at run time may have
    any key. *)
Abbreviation ChatCompletionOpts := (gmap string ParamValue).

(** [ChatMessage].  An object typed [ChatMessage] may carry further own
    properties at run time: they are kept in [others]. *)
Record ChatMessage := {
  role : Role;
  content : string;
  name : option string;
  others : gmap string ParamValue
}.

Record ChatMessageRequest := {
  req_name : string;
  req_text : string;
  req_conversationId : string;
  req_role : option Role;
  req_systemMessage : option string
}.

Record Usage := {
  prompt_tokens : Z;
  completion_tokens : Z;
  total_tokens : Z
}.

(** The message of a choice, as the client returns it. *)
Record ResponseMessage := {
  msg_role : Role;
  msg_content : string
}.

Record Choice := {
  message : option ResponseMessage
}.

(** [ChatResponseDetail] is the response body ([completion.data]).  The
    body of a response may lack [choices] (an empty body, an error page):
    [None] then. *)
Record ChatResponseDetail := {
  id : string;
  created : Z;
  model : string;
  usage : option Usage;
  choices : option (list Choice)
}.

Record ChatResponseMessage := {
  res_content : string;
  res_detail : ChatResponseDetail;
  res_role : Role
}.

Record ChatCompletionAPIOptions := {
  apiKey : option string;
  debug : option bool;
  completionParams : option ChatCompletionOpts;
  systemMessage : option string;
  maxMessages : option Z
}.

(** The client's response object: [data], which is [None] when null or
    undefined, [statusText], and what [JSON.stringify] does on the object:
    [stringify_throws] is the message of the [TypeError] it throws when
    the object cannot be serialised, [None] when it can. *)
Record Completion := {
  data : option ChatResponseDetail;
  statusText : string;
  stringify_throws : option string
}.

(** An entry of the list sent, [{name: .., role: .., content: ..}]. *)
Record RequestMessage := {
  m_name : ParamValue;
  m_role : ParamValue;
  m_content : ParamValue
}.

(** [CreateChatCompletionRequest], as [buildMessage] fills it: the keys it
    sets besides [messages], and the message list. *)
Record CreateChatCompletionRequest := {
  params : gmap string ParamValue;
  messages : list RequestMessage
}.

(** ** exceptions/completion-error.ts *)

Record CompletionError := {
  err_message : string;
  err_type : option string;
  err_param : option string;
  err_code : option string
}.

(** [new CompletionError(message, type, param, code)]; a parameter left out
    is [undefined]. *)
Definition new_CompletionError (m : string) (t p c : option string)
  : CompletionError :=
  {| err_message := m; err_type := t; err_param := p; err_code := c |}.

(** What the rejected promise of the client carries: a message and,
    possibly, classification fields. *)
Record Failure := {
  fail_message : string;
  fail_type : option string;
  fail_param : option string;
  fail_code : option string
}.

(** Values that can be thrown: [new Error(m)], a [CompletionError], what
    the client rejects with, and a [TypeError] of the engine. *)
Inductive Thrown :=
| ThrownError (m : string)
| ThrownCompletionError (e : CompletionError)
| ThrownFailure (f : Failure)
| ThrownTypeError (m : string).

(** Property reads [e.message], [e.type], [e.param], [e.code] on a caught
    value. *)
Definition e_message (e : Thrown) : string :=
  match e with
  | ThrownError m => m
  | ThrownCompletionError c => err_message c
  | ThrownFailure f => fail_message f
  | ThrownTypeError m => m
  end.

Definition e_type (e : Thrown) : option string :=
  match e with
  | ThrownCompletionError c => err_type c
  | ThrownFailure f => fail_type f
  | ThrownError _ | ThrownTypeError _ => None
  end.

Definition e_param (e : Thrown) : option string :=
  match e with
  | ThrownCompletionError c => err_param c
  | ThrownFailure f => fail_param f
  | ThrownError _ | ThrownTypeError _ => None
  end.

Definition e_code (e : Thrown) : option string :=
  match e with
  | ThrownCompletionError c => err_code c
  | ThrownFailure f => fail_code f
  | ThrownError _ | ThrownTypeError _ => None
  end.

(** The messages of the type errors the methods can run into. *)
Definition not_iterable : string :=
  "this.getMessageHistory is not a function or its return value is not iterable".
Definition slice_not_a_function : string :=
  "messageHistory.slice is not a function".
Definition push_not_a_function : string :=
  "this.getMessageHistory(...).push is not a function".
Definition reading_0_of_undefined : string :=
  "Cannot read properties of undefined (reading '0')".
Definition reading_length_of_undefined : string :=
  "Cannot read properties of undefined (reading 'length')".

(** The outcome of [await this.openai.createChatCompletion(request)]. *)
Inductive Outcome :=
| Resolved (completion : Completion)
| Rejected (f : Failure).

(** ** The instance and the store *)

Definition loc := positive.

(** What a read of [this._messagesCache[id]] can find: an array, a function
    of [Object.prototype] (known by its name), or [Object.prototype]
    itself. *)
Inductive Value :=
| VArray (l : loc)
| VFunction (n : string)
| VObjectPrototype.

#[global] Instance Value_eq_dec : EqDecision Value.
Proof. solve_decision. Defined.

(** The functions [Object.prototype] has, with their [length]. *)
Definition Object_prototype_functions : list (string * Z) :=
  [("constructor", 1); ("__defineGetter__", 2); ("__defineSetter__", 2);
   ("hasOwnProperty", 1); ("__lookupGetter__", 1); ("__lookupSetter__", 1);
   ("isPrototypeOf", 1); ("propertyIsEnumerable", 1); ("toString", 0);
   ("valueOf", 0); ("toLocaleString", 0)].

Definition function_length (n : string) : option Z :=
  (list_to_map Object_prototype_functions : gmap string Z) !! n.

(** The own properties of [_messagesCache] are its entries other than
    ["__proto__"]; the entry ["__proto__"], when there is one, is the
    prototype the object was given. *)
Record ChatCompletionAPI := {
  _messagesCache : gmap string Value;
  _completionParams : gmap string ParamValue;
  _systemMessage : string;
  _debug : bool;
  _apiKey : string;
  _maxMessages : Z
}.

Definition DEFAULT_MODEL : string := "gpt-3.5-turbo".
Definition DEFAULT_MAX_MESSAGES : Z := 100.
Definition DEFAULT_SYSTEM_MESSAGE : string := "You are a helpful assistant.".

(** Object spread [{...base, ...over}]: keys of [over] win. *)
Definition spread (base over : gmap string ParamValue)
  : gmap string ParamValue := over ∪ base.

(** [!v] on a value that is a string or [undefined]: both [undefined] and
    the empty string are falsy. *)
Definition js_not (v : option string) : bool :=
  match v with
  | None => true
  | Some "" => true
  | Some _ => false
  end.

(** The fields as the constructor assigns them.  A destructuring default
    applies when the option is [undefined]; spreading an [undefined]
    [completionParams] adds nothing. *)
Definition assigned (opts : ChatCompletionAPIOptions) : ChatCompletionAPI :=
  let debug := default false (debug opts) in
  let systemMessage := default DEFAULT_SYSTEM_MESSAGE (systemMessage opts) in
  let maxMessages := default DEFAULT_MAX_MESSAGES (maxMessages opts) in
  {| _completionParams :=
       spread
         (<["model" := PString DEFAULT_MODEL]>
           (<["temperature" := PNumber (Qmake 8 10)]>
             (<["top_p" := PNumber (Qmake 1 1)]>
               (<["presence_penalty" := PNumber (Qmake 1 1)]> ∅))))
         (default ∅ (completionParams opts));
     _messagesCache := ∅;
     _systemMessage := systemMessage;
     _debug := debug;
     _apiKey := default "" (apiKey opts);
     _maxMessages := maxMessages |}.

(** The constructor: the assignments, then the check on [this._apiKey],
    which holds what [opts.apiKey] held.  The two client objects built
    after the check are not modelled. *)
Definition constructor (opts : ChatCompletionAPIOptions)
  : Thrown + ChatCompletionAPI :=
  let this := assigned opts in
  if js_not (apiKey opts)
  then inl (ThrownError "OpenAI missing required apiKey")
  else inr this.

(** ** The store and the monad of methods *)

(** The instance, the arrays allocated so far, and the requests handed to
    the client so far (oldest first). *)
Record Store := {
  this : ChatCompletionAPI;
  arrays : gmap loc (list ChatMessage);
  sent : list CreateChatCompletionRequest
}.

(** A run returns, throws, or reads a property through a replaced
    prototype, where the embedding stops ([Unmodelled]). *)
Inductive Result (A : Type) :=
| Returned (a : A)
| Threw (e : Thrown)
| Unmodelled.
Arguments Returned {A} a.
Arguments Threw {A} e.
Arguments Unmodelled {A}.

(** A method runs on a store; the store it leaves behind is kept in every
    case (a throw undoes nothing). *)
Definition M (A : Type) : Type := Store → Result A * Store.

#[global] Instance M_ret : MRet M := λ A a s, (Returned a, s).

#[global] Instance M_bind : MBind M := λ A B f m s,
  match m s with
  | (Returned a, s') => f a s'
  | (Threw e, s') => (Threw e, s')
  | (Unmodelled, s') => (Unmodelled, s')
  end.

Definition throw {A} (e : Thrown) : M A := λ s, (Threw e, s).

(** The value of a result, if it is one. *)
Definition returned {A} (r : Result A) : option A :=
  match r with
  | Returned a => Some a
  | Threw _ | Unmodelled => None
  end.

(** [try { body } catch (e) { handler e }] *)
Definition try_catch {A} (body : M A) (handler : Thrown → M A) : M A := λ s,
  match body s with
  | (Returned a, s') => (Returned a, s')
  | (Threw e, s') => handler e s'
  | (Unmodelled, s') => (Unmodelled, s')
  end.

Definition get_this : M ChatCompletionAPI := λ s, (Returned (this s), s).

Definition with_cache (t : ChatCompletionAPI) (c : gmap string Value)
  : ChatCompletionAPI :=
  {| _messagesCache := c;
     _completionParams := _completionParams t;
     _systemMessage := _systemMessage t;
     _debug := _debug t;
     _apiKey := _apiKey t;
     _maxMessages := _maxMessages t |}.

(** The prototype of the cache object: [Object.prototype] unless an
    assignment to ["__proto__"] gave it another. *)
Definition prototype_of (cache : gmap string Value) : Value :=
  default VObjectPrototype (cache !! "__proto__").

(** The value of [cache[id]]: the own property if there is one; for
    ["__proto__"], the prototype; otherwise what the prototype has under
    that name, which is a function or nothing when the prototype is
    [Object.prototype]. *)
Definition property (cache : gmap string Value) (id : string)
  : Result (option Value) :=
  match cache !! id with
  | Some v => Returned (Some v)
  | None =>
      if String.eqb id "__proto__" then Returned (Some VObjectPrototype)
      else
        match prototype_of cache with
        | VObjectPrototype =>
            Returned (match function_length id with
                      | Some _ => Some (VFunction id)
                      | None => None
                      end)
        | VArray _ | VFunction _ => Unmodelled
        end
  end.

(** [this._messagesCache[conversationId]] *)
Definition cache_get (conversationId : string) : M (option Value) := λ s,
  (property (_messagesCache (this s)) conversationId, s).

(** [this._messagesCache[conversationId] = value]: an own property is made
    or replaced; for ["__proto__"] the prototype is. *)
Definition cache_assign (conversationId : string) (value : Value) : M unit :=
  λ s,
  (Returned (),
   {| this := with_cache (this s)
                (<[conversationId := value]> (_messagesCache (this s)));
      arrays := arrays s;
      sent := sent s |}).

(** An array literal or a copy: a new object, at a location not in use. *)
Definition new_array (items : list ChatMessage) : M loc := λ s,
  let l := fresh (dom (arrays s)) in
  (Returned l,
   {| this := this s; arrays := <[l := items]> (arrays s); sent := sent s |}).

(** The elements of the array at [l], first to last. *)
Definition contents (s : Store) (l : loc) : list ChatMessage :=
  default [] (arrays s !! l).

Definition array_read (l : loc) : M (list ChatMessage) := λ s,
  (Returned (contents s l), s).

(** [array.push(m)] *)
Definition array_push (l : loc) (m : ChatMessage) : M unit := λ s,
  (Returned (),
   {| this := this s;
      arrays := <[l := contents s l ++ [m]]> (arrays s);
      sent := sent s |}).

(** [items.slice(start)] on the elements: a negative [start] counts from
    the end, and is clamped to the array; [-0] is [0]. *)
Definition js_slice {A} (start : Z) (items : list A) : list A :=
  let len := Z.of_nat (length items) in
  let k := if start <? 0 then Z.max (len + start) 0 else Z.min start len in
  drop (Z.to_nat k) items.

(** [array.slice(start)]: a new array. *)
Definition array_slice (l : loc) (start : Z) : M loc :=
  items ← array_read l;
  new_array (js_slice start items).

(** [value.length]: the number of elements of an array, the [length] of a
    function, [undefined] on [Object.prototype]. *)
Definition value_length (v : Value) : M (option Z) := λ s,
  (Returned match v with
            | VArray l => Some (Z.of_nat (length (contents s l)))
            | VFunction n => function_length n
            | VObjectPrototype => None
            end, s).

(** [length > bound]; a comparison with [undefined] is false. *)
Definition exceeds (len : option Z) (bound : Z) : bool :=
  match len with
  | Some n => n >? bound
  | None => false
  end.

(** [value.slice(start)]: only arrays have a [slice]. *)
Definition value_slice (v : Value) (start : Z) : M Value :=
  match v with
  | VArray l => l' ← array_slice l start; mret (VArray l')
  | VFunction _ | VObjectPrototype =>
      throw (ThrownTypeError slice_not_a_function)
  end.

(** [for (const msg of value)]: the elements, when the value is an array;
    functions and [Object.prototype] are not iterable. *)
Definition iterate (v : Value) : M (list ChatMessage) :=
  match v with
  | VArray l => array_read l
  | VFunction _ | VObjectPrototype => throw (ThrownTypeError not_iterable)
  end.

(** [value.push(m)]: only arrays have a [push]. *)
Definition value_push (v : Value) (m : ChatMessage) : M unit :=
  match v with
  | VArray l => array_push l m
  | VFunction _ | VObjectPrototype =>
      throw (ThrownTypeError push_not_a_function)
  end.

(** [await this.openai.createChatCompletion(request)]: the request goes
    out, and the call resolves or rejects as the client decides. *)
Definition createChatCompletion (request : CreateChatCompletionRequest)
    (outcome : Outcome) : M Completion := λ s,
  let s' := {| this := this s; arrays := arrays s;
               sent := sent s ++ [request] |} in
  match outcome with
  | Resolved completion => (Returned completion, s')
  | Rejected f => (Threw (ThrownFailure f), s')
  end.

(** [console.log(JSON.stringify(completion))]: throws when the object
    cannot be serialised, and prints otherwise. *)
Definition log_json (completion : Completion) : M unit :=
  match stringify_throws completion with
  | Some m => throw (ThrownTypeError m)
  | None => mret ()
  end.

(** [completion.data?.choices[0]?.message], with the body it came from:
    [undefined] when [data] is null or undefined, when [choices] is empty
    and when the first choice has no message; a [TypeError] when the body
    has no [choices]. *)
Definition first_message (completion : Completion)
  : M (option (ChatResponseDetail * ResponseMessage)) :=
  match data completion with
  | None => mret None
  | Some d =>
      match choices d with
      | None => throw (ThrownTypeError reading_0_of_undefined)
      | Some [] => mret None
      | Some (choice :: _) =>
          match message choice with
          | None => mret None
          | Some m => mret (Some (d, m))
          end
      end
  end.

(** ** The methods *)

(** Returns the cached value itself while its [length] is at most
    [_maxMessages - 1], and a copy of the array's tail otherwise. *)
Definition getMessageHistory (conversationId : string) : M Value :=
  this ← get_this;
  let maxMessages := _maxMessages this - 1 in
  (* this._messagesCache[conversationId] || [] : arrays, functions and
     objects are truthy *)
  found ← cache_get conversationId;
  value ←
    match found with
    | Some v => mret v
    | None => l ← new_array []; mret (VArray l)
    end;
  _ ← cache_assign conversationId value;
  reread ← cache_get conversationId;
  match reread with
  | None => throw (ThrownTypeError reading_length_of_undefined)
  | Some messageHistory =>
      len ← value_length messageHistory;
      if exceeds len maxMessages
      then value_slice messageHistory (- maxMessages)
      else mret messageHistory
  end.

(** The caller's array becomes the cached one; nothing is copied. *)
Definition setMessageHistory (conversationId : string) (messageHistory : loc)
  : M unit :=
  cache_assign conversationId (VArray messageHistory).

(** The object literal of the loop body: [name], [role] and [content] of
    the stored message, and nothing else. *)
Definition reemit (msg : ChatMessage) : RequestMessage :=
  {| m_name := match name msg with
               | Some n => PString n
               | None => PUndefined
               end;
     m_role := PString (role_string (role msg));
     m_content := PString (content msg) |}.

(** [object.key], [undefined] when the object has no such property. *)
Definition get_property (object : gmap string ParamValue) (key : string)
  : ParamValue :=
  default PUndefined (object !! key).

(** [message] is the object [sendMessage] builds; [systemMessage] defaults
    to [this._systemMessage] when [undefined].  The request holds [model]
    and [messages] and no other key. *)
Definition buildMessage (conversationId : string)
    (message : gmap string ParamValue) (systemMessage : option string)
  : M CreateChatCompletionRequest :=
  this ← get_this;
  let systemMessage := default (_systemMessage this) systemMessage in
  let messagesInput : list RequestMessage := [] in
  let messagesInput :=
    messagesInput ++
      [{| m_content := PString systemMessage; m_role := PString "system";
          m_name := PUndefined |}] in
  history ← getMessageHistory conversationId;
  msgs ← iterate history;
  let messagesInput :=
    foldl (λ acc msg, acc ++ [reemit msg]) messagesInput msgs in
  let messagesInput :=
    messagesInput ++
      [{| m_name := get_property message "name";
          m_role := if truthy (get_property message "role")
                    then get_property message "role"
                    else PString "user";
          m_content := get_property message "content" |}] in
  this ← get_this;
  mret {| params :=
            match _completionParams this !! "model" with
            | Some v => {["model" := v]}
            | None => ∅
            end;
          messages := messagesInput |}.

(** [{ name: name, content: text, role: role, ...opts }] *)
Definition message_object (name text : string) (role : Role)
    (opts : option ChatCompletionOpts) : gmap string ParamValue :=
  spread
    (<["name" := PString name]>
      (<["content" := PString text]>
        (<["role" := PString (role_string role)]> ∅)))
    (default ∅ opts).

(** [outcome] is what the one call to the client does. *)
Definition sendMessage (chatRequest : ChatMessageRequest)
    (opts : option ChatCompletionOpts) (outcome : Outcome)
  : M ChatResponseMessage :=
  let name := req_name chatRequest in
  let text := req_text chatRequest in
  let conversationId := req_conversationId chatRequest in
  let role := default user (req_role chatRequest) in
  let systemMessage := req_systemMessage chatRequest in
  chatCompletionRequest ←
    buildMessage conversationId (message_object name text role opts)
      systemMessage;
  try_catch
    (completion ← createChatCompletion chatCompletionRequest outcome;
     this ← get_this;
     _ ← (if _debug this then log_json completion else mret ());
     found ← first_message completion;
     match found with
     | None =>
         throw (ThrownCompletionError
                  (new_CompletionError (statusText completion)
                     None None None))
     | Some (detail, reply) =>
         h ← getMessageHistory conversationId;
         _ ← value_push h
               {| content := text; name := Some name; role := role;
                  others := ∅ |};
         h ← getMessageHistory conversationId;
         _ ← value_push h
               {| content := msg_content reply; role := msg_role reply;
                  name := None; others := ∅ |};
         mret {| res_content := msg_content reply;
                 res_detail := detail;
                 res_role := msg_role reply |}
     end)
    (λ e,
       (* if (this._debug) console.log(e) : prints *)
       throw (ThrownCompletionError
                (new_CompletionError (e_message e) (e_type e) (e_param e)
                   (e_code e)))).

(** What a caller sees who goes through the result of
    [getMessageHistory]: its elements. *)
Definition historyOf (conversationId : string) : M (list ChatMessage) :=
  h ← getMessageHistory conversationId;
  iterate h.

(** The elements of the array kept in the cache for a conversation; no
    array there reads as no message. *)
Definition stored (s : Store) (conversationId : string) : list ChatMessage :=
  match _messagesCache (this s) !! conversationId with
  | Some (VArray l) => contents s l
  | _ => []
  end.

(** An array value has been allocated. *)
Definition allocated (s : Store) (v : Value) : Prop :=
  match v with
  | VArray l => is_Some (arrays s !! l)
  | VFunction _ | VObjectPrototype => True
  end.

#[global] Instance allocated_dec s v : Decision (allocated s v).
Proof. destruct v; simpl; apply _. Defined.

(** Every array the cache refers to has been allocated. *)
Definition wf (s : Store) : Prop :=
  map_Forall (λ _ v, allocated s v) (_messagesCache (this s)).

#[global] Instance wf_dec s : Decision (wf s).
Proof. unfold wf. apply _. Defined.

(** ** Definitions used to state and prove the properties *)

(** The elements [getMessageHistory] hands out, as a function of the
    instance's [_maxMessages] and of the stored elements. *)
Definition window (maxMessages : Z) (items : list ChatMessage)
  : list ChatMessage :=
  if Z.of_nat (length items) >? maxMessages - 1
  then js_slice (- (maxMessages - 1)) items
  else items.

(** What [this._messagesCache[id]] reads, by kind: an array or nothing (a
    list of messages, empty in the second case), a function, the object
    prototype, or a value the embedding does not follow. *)
Inductive Kind :=
| KList
| KFunction (n : string)
| KObjectPrototype
| KUnmodelled.

#[global] Instance Kind_eq_dec : EqDecision Kind.
Proof. solve_decision. Defined.

Definition kind (s : Store) (cid : string) : Kind :=
  match property (_messagesCache (this s)) cid with
  | Returned (Some (VArray _)) | Returned None => KList
  | Returned (Some (VFunction n)) => KFunction n
  | Returned (Some VObjectPrototype) => KObjectPrototype
  | Threw _ | Unmodelled => KUnmodelled
  end.

(** The array the cache holds for the conversation after the first two
    statements of [getMessageHistory], when the read is of kind [KList]. *)
Definition cached_loc (cid : string) (s : Store) : loc :=
  match _messagesCache (this s) !! cid with
  | Some (VArray l) => l
  | _ => fresh (dom (arrays s))
  end.

(** The store after those two statements: the entry is there, with a new
    empty array if there was none. *)
Definition ensure_entry (cid : string) (s : Store) : Store :=
  {| this := with_cache (this s)
               (<[cid := VArray (cached_loc cid s)]> (_messagesCache (this s)));
     arrays := match _messagesCache (this s) !! cid with
               | Some (VArray _) => arrays s
               | _ => <[cached_loc cid s := []]> (arrays s)
               end;
     sent := sent s |}.

(** The copy made when the array is longer than [_maxMessages - 1]. *)
Definition copy_loc (cid : string) (s : Store) : loc :=
  fresh (dom (arrays (ensure_entry cid s))).

(** The store once the copy has been made. *)
Definition with_copy (cid : string) (s : Store) : Store :=
  let s1 := ensure_entry cid s in
  {| this := this s1;
     arrays := <[copy_loc cid s :=
                   js_slice (- (_maxMessages (this s) - 1))
                     (contents s1 (cached_loc cid s))]> (arrays s1);
     sent := sent s1 |}.

(** The store after the assignment of a value that is not an array. *)
Definition settled (cid : string) (v : Value) (s : Store) : Store :=
  {| this := with_cache (this s) (<[cid := v]> (_messagesCache (this s)));
     arrays := arrays s;
     sent := sent s |}.

(** How a run ends that reads, for the conversation, a value that is not a
    list: [getMessageHistory] throws when a function is longer than the
    bound, and the loop of [buildMessage] throws on what it returns
    otherwise. *)
Definition refused {A} (s : Store) (cid : string) : Result A :=
  match kind s cid with
  | KFunction n =>
      Threw (ThrownTypeError
               (if exceeds (function_length n) (_maxMessages (this s) - 1)
                then slice_not_a_function
                else not_iterable))
  | KList | KObjectPrototype => Threw (ThrownTypeError not_iterable)
  | KUnmodelled => Unmodelled
  end.

(** Whether [getMessageHistory] takes the [slice] branch on an array. *)
Definition over (cid : string) (s : Store) : bool :=
  Z.of_nat (length (stored s cid)) >? _maxMessages (this s) - 1.

(** Two instances that differ at most in the cache. *)
Definition same_config (t t' : ChatCompletionAPI) : Prop :=
  t' = with_cache t (_messagesCache t').

(** A step that leaves every stored history as it was: the configuration,
    the elements of every array allocated before, the stored elements of
    every conversation and the kind of what every id reads. *)
Record preserved (s s' : Store) : Prop := {
  pres_wf : wf s';
  pres_config : same_config (this s) (this s');
  pres_arrays : ∀ l items,
    arrays s !! l = Some items → arrays s' !! l = Some items;
  pres_stored : ∀ cid, stored s' cid = stored s cid;
  pres_kind : ∀ cid, kind s' cid = kind s cid
}.

(** The statement [this.getMessageHistory(cid).push(m)]. *)
Definition push_history (cid : string) (m : ChatMessage) : M unit :=
  h ← getMessageHistory cid;
  value_push h m.

(** The last entry of the list sent, read off the message object. *)
Definition last_entry (message : gmap string ParamValue) : RequestMessage :=
  {| m_name := get_property message "name";
     m_role := if truthy (get_property message "role")
               then get_property message "role"
               else PString "user";
     m_content := get_property message "content" |}.

(** The request [buildMessage] composes from the elements [history] that
    [getMessageHistory] hands out. *)
Definition composed (t : ChatCompletionAPI) (systemMessage : option string)
    (history : list ChatMessage) (message : gmap string ParamValue)
  : CreateChatCompletionRequest :=
  {| params := match _completionParams t !! "model" with
               | Some v => {["model" := v]}
               | None => ∅
               end;
     messages :=
       {| m_content := PString (default (_systemMessage t) systemMessage);
          m_role := PString "system"; m_name := PUndefined |}
       :: map reemit history ++ [last_entry message] |}.

(** The first object [sendMessage] pushes: the request's text, name and
    role. *)
Definition outgoing (chatRequest : ChatMessageRequest) : ChatMessage :=
  {| content := req_text chatRequest;
     name := Some (req_name chatRequest);
     role := default user (req_role chatRequest);
     others := ∅ |}.

(** The second object [sendMessage] pushes: the reply's content and role. *)
Definition incoming (reply : ResponseMessage) : ChatMessage :=
  {| content := msg_content reply; role := msg_role reply; name := None;
     others := ∅ |}.

(** The request [sendMessage] gets from [buildMessage] when the cache
    reads a list for the conversation. *)
Definition submitted (chatRequest : ChatMessageRequest)
    (opts : option ChatCompletionOpts) (s : Store)
  : CreateChatCompletionRequest :=
  composed (this s) (req_systemMessage chatRequest)
    (window (_maxMessages (this s))
       (stored s (req_conversationId chatRequest)))
    (message_object (req_name chatRequest) (req_text chatRequest)
       (default user (req_role chatRequest)) opts).

(** The store once the request has gone out. *)
Definition called (chatRequest : ChatMessageRequest)
    (opts : option ChatCompletionOpts) (s : Store) : Store :=
  let s1 := snd (getMessageHistory (req_conversationId chatRequest) s) in
  {| this := this s1; arrays := arrays s1;
     sent := sent s1 ++ [submitted chatRequest opts s] |}.

(** What the [catch] clause throws for a caught [e]. *)
Definition rethrown (e : Thrown) : Thrown :=
  ThrownCompletionError
    (new_CompletionError (e_message e) (e_type e) (e_param e) (e_code e)).

(** How the [try] block ends before it pushes anything, by the instance's
    [debug] flag and the client's outcome: with what it throws, or with
    the body and the message it goes on with. *)
Definition verdict (debug : bool) (outcome : Outcome)
  : Thrown + ChatResponseDetail * ResponseMessage :=
  match outcome with
  | Rejected f => inl (ThrownFailure f)
  | Resolved completion =>
      match (if debug then stringify_throws completion else None) with
      | Some m => inl (ThrownTypeError m)
      | None =>
          let no_message :=
            inl (ThrownCompletionError
                   (new_CompletionError (statusText completion)
                      None None None)) in
          match data completion with
          | None => no_message
          | Some d =>
              match choices d with
              | None => inl (ThrownTypeError reading_0_of_undefined)
              | Some [] => no_message
              | Some (choice :: _) =>
                  match message choice with
                  | None => no_message
                  | Some m => inr (d, m)
                  end
              end
          end
      end
  end.

(** The options have no [name], [role] or [content] key, as the type
    [ChatCompletionOpts] declares. *)
Definition no_message_key (opts : option ChatCompletionOpts) : Prop :=
  default ∅ opts !! "name" = None ∧
  default ∅ opts !! "role" = None ∧
  default ∅ opts !! "content" = None.


(** One call of [sendMessage]: the request, the per-call options, and what
    the client does. *)
Definition Call : Type :=
  ChatMessageRequest * option ChatCompletionOpts * Outcome.

(** The store after the calls, made one after the other. *)
Definition run_calls (calls : list Call) (s : Store) : Store :=
  foldl (λ s call, snd (sendMessage call.1.1 call.1.2 call.2 s)) s calls.

(** The messages a call pushes when it gets to the end of the [try] block;
    a call that throws before pushes none. *)
Definition exchanged (debug : bool) (call : Call) : list ChatMessage :=
  match verdict debug call.2 with
  | inr (_, reply) => [outgoing call.1.1; incoming reply]
  | inl _ => []
  end.

(** ** Concrete inputs *)

(** Options with an [apiKey] field only. *)
Definition only_key (key : option string) : ChatCompletionAPIOptions :=
  {| apiKey := key; debug := None; completionParams := None;
     systemMessage := None; maxMessages := None |}.

(** Options with an [apiKey] and a [maxMessages]. *)
Definition key_and_max (key : string) (n : Z) : ChatCompletionAPIOptions :=
  {| apiKey := Some key; debug := None; completionParams := None;
     systemMessage := None; maxMessages := Some n |}.

(** Options with an [apiKey] and [debug] on. *)
Definition key_and_debug (key : string) : ChatCompletionAPIOptions :=
  {| apiKey := Some key; debug := Some true; completionParams := None;
     systemMessage := None; maxMessages := None |}.

(** The store right after construction: no array, nothing sent. *)
Definition fresh_store (t : ChatCompletionAPI) : Store :=
  {| this := t; arrays := ∅; sent := [] |}.

(** A request from user ["u"] in conversation [cid]. *)
Definition ask (cid text : string) : ChatMessageRequest :=
  {| req_name := "u"; req_text := text; req_conversationId := cid;
     req_role := None; req_systemMessage := None |}.

(** The body of a response whose first choice is an assistant message. *)
Definition body (text : string) : ChatResponseDetail :=
  {| id := "cmpl-1"; created := 0; model := DEFAULT_MODEL; usage := None;
     choices := Some [{| message := Some {| msg_role := assistant;
                                            msg_content := text |} |}] |}.

(** A response with that body, which [JSON.stringify] can serialise. *)
Definition answer (text : string) : Outcome :=
  Resolved
    {| data := Some (body text); statusText := "OK";
       stringify_throws := None |}.

(** The same response as the client hands it over: the object refers to
    itself through its request, and [JSON.stringify] throws on it. *)
Definition circular_answer (text : string) : Outcome :=
  Resolved
    {| data := Some (body text); statusText := "OK";
       stringify_throws := Some "Converting circular structure to JSON" |}.

(** What [sendMessage] returns on [answer text]. *)
Definition answered (text : string) : ChatResponseMessage :=
  {| res_content := text; res_detail := body text; res_role := assistant |}.



(** A message with the three declared fields and no other key. *)
Definition said (r : Role) (who : option string) (text : string) : ChatMessage :=
  {| role := r; content := text; name := who; others := ∅ |}.

(** An entry of a list sent. *)
Definition entry (r : string) (who : ParamValue) (text : string)
  : RequestMessage :=
  {| m_name := who; m_role := PString r; m_content := PString text |}.

(** What the constructor throws. *)
Definition missing_apiKey : Thrown :=
  ThrownError "OpenAI missing required apiKey".

(** A store in which a saved history has been put back with
    [setMessageHistory]. *)
Definition restored (t : ChatCompletionAPI) (cid : string)
    (items : list ChatMessage) : Store :=
  snd ((l ← new_array items; setMessageHistory cid l) (fresh_store t)).

(** ** Pure facts: slices and the window of [getMessageHistory] *)

(** [-0], or any non-negative start at most the length. *)
Lemma js_slice_zero {A} (items : list A) : js_slice (- 0) items = items.
Proof. unfold js_slice. simpl. by rewrite Z.min_l by lia. Qed.

(** A negative start within the array keeps that many last elements. *)
Lemma js_slice_last {A} (n : Z) (items : list A) :
  0 < n → n ≤ Z.of_nat (length items) →
  js_slice (- n) items = drop (length items - Z.to_nat n) items.
Proof.
  intros Hpos Hle. unfold js_slice.
  assert ((- n <? 0) = true) as -> by (apply Z.ltb_lt; lia).
  f_equal. lia.
Qed.

Lemma js_slice_length_last {A} (n : Z) (items : list A) :
  0 < n → n ≤ Z.of_nat (length items) →
  Z.of_nat (length (js_slice (- n) items)) = n.
Proof.
  intros Hpos Hle. rewrite js_slice_last by done.
  rewrite length_drop. lia.
Qed.

Lemma window_fits maxMessages items :
  Z.of_nat (length items) ≤ maxMessages - 1 →
  window maxMessages items = items.
Proof.
  intros Hle. unfold window.
  destruct (Z.gtb_spec (Z.of_nat (length items)) (maxMessages - 1)); [lia|done].
Qed.

Lemma window_most_recent maxMessages items :
  2 ≤ maxMessages →
  maxMessages - 1 < Z.of_nat (length items) →
  window maxMessages items =
    drop (length items - Z.to_nat (maxMessages - 1)) items.
Proof.
  intros Hmax Hlt. unfold window.
  destruct (Z.gtb_spec (Z.of_nat (length items)) (maxMessages - 1)); [|lia].
  apply js_slice_last; lia.
Qed.

Lemma window_one items : window 1 items = items.
Proof.
  unfold window. change (1 - 1) with 0.
  destruct (_ >? _); [apply js_slice_zero|done].
Qed.

(** ** Reading the cache *)

Lemma property_own cache cid v :
  cache !! cid = Some v → property cache cid = Returned (Some v).
Proof. intros Hv. unfold property. by rewrite Hv. Qed.

Lemma property_insert_eq cache cid v :
  property (<[cid := v]> cache) cid = Returned (Some v).
Proof. apply property_own, lookup_insert_eq. Qed.

(** Only an own property reads as an array. *)
Lemma property_array cache cid l :
  property cache cid = Returned (Some (VArray l)) →
  cache !! cid = Some (VArray l).
Proof.
  unfold property. destruct (cache !! cid) as [v|]; [congruence|].
  destruct (String.eqb cid "__proto__"); [done|].
  destruct (prototype_of cache); [done| done|].
  by destruct (function_length cid).
Qed.

Lemma property_nothing cache cid :
  property cache cid = Returned None → cache !! cid = None.
Proof. unfold property. by destruct (cache !! cid). Qed.

(** Assigning to an id the value it reads changes what no id reads. *)
Lemma property_insert_same cache cid v cid' :
  property cache cid = Returned (Some v) →
  property (<[cid := v]> cache) cid' = property cache cid'.
Proof.
  intros Hv. destruct (decide (cid' = cid)) as [->|Hne].
  - by rewrite property_insert_eq.
  - unfold property. rewrite lookup_insert_ne by done.
    destruct (cache !! cid') as [v'|]; [done|].
    destruct (String.eqb cid' "__proto__"); [done|].
    assert (prototype_of (<[cid := v]> cache) = prototype_of cache) as ->;
      [|done].
    unfold prototype_of. destruct (decide (cid = "__proto__")) as [->|Hp].
    + rewrite lookup_insert_eq. unfold property in Hv.
      destruct (cache !! "__proto__") as [p|]; simpl in *; congruence.
    + by rewrite lookup_insert_ne.
Qed.

(** A new entry for an id that read nothing changes what no other id
    reads. *)
Lemma property_insert_new cache cid v cid' :
  property cache cid = Returned None → cid' ≠ cid →
  property (<[cid := v]> cache) cid' = property cache cid'.
Proof.
  intros Hnone Hne. unfold property. rewrite lookup_insert_ne by done.
  destruct (cache !! cid') as [v'|]; [done|].
  destruct (String.eqb cid' "__proto__"); [done|].
  assert (prototype_of (<[cid := v]> cache) = prototype_of cache) as ->;
    [|done].
  unfold prototype_of. destruct (decide (cid = "__proto__")) as [->|Hp].
  - unfold property in Hnone.
    destruct (cache !! "__proto__"); [done|]. by simpl in Hnone.
  - by rewrite lookup_insert_ne.
Qed.

Lemma kind_list s cid :
  kind s cid = KList →
  (∃ l, _messagesCache (this s) !! cid = Some (VArray l)) ∨
  property (_messagesCache (this s)) cid = Returned None.
Proof.
  unfold kind.
  destruct (property _ cid) as [[[l|n|]|]|e|] eqn:Hp; try done.
  - intros _. left. exists l. by apply property_array.
  - by right.
Qed.

Lemma kind_own_array s cid l :
  _messagesCache (this s) !! cid = Some (VArray l) → kind s cid = KList.
Proof. intros Hl. unfold kind. by rewrite (property_own _ _ _ Hl). Qed.

(** ** [getMessageHistory], step by step *)

Lemma over_false cid s :
  Z.of_nat (length (stored s cid)) ≤ _maxMessages (this s) - 1 →
  over cid s = false.
Proof.
  intros Hle. unfold over.
  destruct (Z.gtb_spec (Z.of_nat (length (stored s cid)))
              (_maxMessages (this s) - 1)); [lia|done].
Qed.

Lemma contents_ensure_entry cid s :
  contents (ensure_entry cid s) (cached_loc cid s) = stored s cid.
Proof.
  unfold contents, ensure_entry, cached_loc, stored, contents; simpl.
  destruct (_messagesCache (this s) !! cid) as [[l|n|]|]; simpl; try done;
    by rewrite lookup_insert_eq.
Qed.

(** On an id that reads an array or nothing. *)
Lemma getMessageHistory_list cid s :
  kind s cid = KList →
  getMessageHistory cid s =
    if over cid s
    then (Returned (VArray (copy_loc cid s)), with_copy cid s)
    else (Returned (VArray (cached_loc cid s)), ensure_entry cid s).
Proof.
  intros Hkind. unfold over. rewrite <- contents_ensure_entry.
  unfold getMessageHistory, with_copy, copy_loc, ensure_entry, cached_loc.
  unfold mbind, M_bind, get_this, cache_get.
  destruct (kind_list s cid Hkind) as [[l Hl]|Hnone].
  - rewrite (property_own _ _ _ Hl), Hl.
    cbn -[Z.gtb Z.sub fresh property].
    rewrite property_insert_eq.
    cbn -[Z.gtb Z.sub fresh].
    match goal with |- context [?a >? ?b] => destruct (a >? b) end;
      reflexivity.
  - rewrite Hnone, (property_nothing _ _ Hnone).
    cbn -[Z.gtb Z.sub fresh property].
    rewrite property_insert_eq.
    cbn -[Z.gtb Z.sub fresh].
    match goal with |- context [?a >? ?b] => destruct (a >? b) end;
      reflexivity.
Qed.

(** On an id that reads a function of [Object.prototype]. *)
Lemma getMessageHistory_function cid s n :
  kind s cid = KFunction n →
  getMessageHistory cid s =
    (if exceeds (function_length n) (_maxMessages (this s) - 1)
     then Threw (ThrownTypeError slice_not_a_function)
     else Returned (VFunction n),
     settled cid (VFunction n) s).
Proof.
  unfold kind.
  destruct (property _ cid) as [[[l|n'|]|]|e|] eqn:Hp; try done.
  intros [= ->].
  unfold getMessageHistory, mbind, M_bind, get_this, cache_get.
  rewrite Hp. cbn -[Z.gtb Z.sub fresh property].
  rewrite property_insert_eq. cbn -[Z.gtb Z.sub fresh].
  by destruct (exceeds _ _).
Qed.

(** On ["__proto__"], while the prototype is [Object.prototype]. *)
Lemma getMessageHistory_object_prototype cid s :
  kind s cid = KObjectPrototype →
  getMessageHistory cid s =
    (Returned VObjectPrototype, settled cid VObjectPrototype s).
Proof.
  unfold kind.
  destruct (property _ cid) as [[[l|n'|]|]|e|] eqn:Hp; try done.
  intros _.
  unfold getMessageHistory, mbind, M_bind, get_this, cache_get.
  rewrite Hp. cbn -[Z.gtb Z.sub fresh property].
  rewrite property_insert_eq. reflexivity.
Qed.

Lemma property_never_throws cache cid e : property cache cid ≠ Threw e.
Proof.
  unfold property. destruct (cache !! cid); [done|].
  destruct (String.eqb _ _); [done|]. by destruct (prototype_of cache).
Qed.

Lemma getMessageHistory_unmodelled cid s :
  kind s cid = KUnmodelled → getMessageHistory cid s = (Unmodelled, s).
Proof.
  unfold kind.
  destruct (property _ cid) as [[[l|n'|]|]|e|] eqn:Hp; try done; intros _.
  - by apply property_never_throws in Hp.
  - unfold getMessageHistory, mbind, M_bind, get_this, cache_get.
    by rewrite Hp.
Qed.

(** ** What [getMessageHistory] and [push] leave in place *)

Lemma same_config_refl t : same_config t t.
Proof. by destruct t. Qed.

Lemma same_config_trans t1 t2 t3 :
  same_config t1 t2 → same_config t2 t3 → same_config t1 t3.
Proof. unfold same_config. intros H12 ->. by rewrite H12. Qed.

Lemma same_config_maxMessages t t' :
  same_config t t' → _maxMessages t' = _maxMessages t.
Proof. by intros ->. Qed.

Lemma same_config_debug t t' : same_config t t' → _debug t' = _debug t.
Proof. by intros ->. Qed.

Lemma fresh_loc_unused (s : Store) : arrays s !! fresh (dom (arrays s)) = None.
Proof. apply not_elem_of_dom, is_fresh. Qed.

Lemma wf_lookup s cid l :
  wf s → _messagesCache (this s) !! cid = Some (VArray l) →
  is_Some (arrays s !! l).
Proof. intros Hwf Hl. exact (Hwf cid (VArray l) Hl). Qed.

Lemma kind_same_cache s s' cid :
  _messagesCache (this s') = _messagesCache (this s) → kind s' cid = kind s cid.
Proof. unfold kind. by intros ->. Qed.

Section ensure_entry.
Context (cid : string) (s : Store).

Lemma ensure_entry_config : same_config (this s) (this (ensure_entry cid s)).
Proof. reflexivity. Qed.

Lemma ensure_entry_sent : sent (ensure_entry cid s) = sent s.
Proof. reflexivity. Qed.

Lemma ensure_entry_cached :
  _messagesCache (this (ensure_entry cid s)) !! cid =
    Some (VArray (cached_loc cid s)).
Proof. simpl. apply lookup_insert_eq. Qed.

Lemma ensure_entry_cache_other cid' :
  cid' ≠ cid →
  _messagesCache (this (ensure_entry cid s)) !! cid' =
    _messagesCache (this s) !! cid'.
Proof. intros Hne. simpl. by rewrite lookup_insert_ne. Qed.

(** Arrays already there keep their elements. *)
Lemma ensure_entry_arrays l items :
  arrays s !! l = Some items → arrays (ensure_entry cid s) !! l = Some items.
Proof.
  intros Hl. unfold ensure_entry, cached_loc; simpl.
  destruct (_messagesCache (this s) !! cid) as [[l'|n|]|]; simpl; try done;
    (rewrite lookup_insert_ne; [done|]);
    intros <-; by rewrite fresh_loc_unused in Hl.
Qed.

Lemma ensure_entry_contents l :
  contents (ensure_entry cid s) l = contents s l.
Proof.
  unfold contents, ensure_entry, cached_loc; simpl.
  destruct (_messagesCache (this s) !! cid) as [[l'|n|]|]; simpl; try done;
    (destruct (decide (l = fresh (dom (arrays s)))) as [->|Hne];
     [by rewrite lookup_insert_eq, fresh_loc_unused
     |by rewrite lookup_insert_ne]).
Qed.

(** No conversation's stored elements change, whether or not an entry is
    created. *)
Lemma ensure_entry_stored cid' :
  stored (ensure_entry cid s) cid' = stored s cid'.
Proof.
  unfold stored at 1. destruct (decide (cid' = cid)) as [->|Hne].
  - rewrite ensure_entry_cached, contents_ensure_entry. done.
  - rewrite ensure_entry_cache_other by done.
    unfold stored. destruct (_ !! cid') as [[l|n|]|]; try done.
    apply ensure_entry_contents.
Qed.

Lemma ensure_entry_wf : wf s → wf (ensure_entry cid s).
Proof.
  intros Hwf cid' v Hv. destruct (decide (cid' = cid)) as [->|Hne].
  - rewrite ensure_entry_cached in Hv. injection Hv as <-.
    unfold ensure_entry, cached_loc; simpl.
    destruct (_messagesCache (this s) !! cid) as [[l|n|]|] eqn:Hc; simpl;
      try (rewrite lookup_insert_eq; by eauto).
    by apply (wf_lookup s cid).
  - rewrite ensure_entry_cache_other in Hv by done.
    pose proof (Hwf cid' v Hv) as Hal. destruct v as [l|n|]; try done.
    destruct Hal as [items Hitems].
    exists items. by apply ensure_entry_arrays.
Qed.

Lemma ensure_entry_over : over cid (ensure_entry cid s) = over cid s.
Proof. unfold over. by rewrite ensure_entry_stored. Qed.

(** What an id reads keeps its kind. *)
Lemma ensure_entry_kind cid' :
  kind s cid = KList → kind (ensure_entry cid s) cid' = kind s cid'.
Proof.
  intros Hkind. unfold kind. simpl. unfold cached_loc.
  destruct (kind_list s cid Hkind) as [[l Hl]|Hnone].
  - rewrite Hl. by rewrite (property_insert_same _ _ _ _ (property_own _ _ _ Hl)).
  - rewrite (property_nothing _ _ Hnone).
    destruct (decide (cid' = cid)) as [->|Hne].
    + by rewrite property_insert_eq, Hnone.
    + by rewrite property_insert_new.
Qed.
End ensure_entry.

Section with_copy.
Context (cid : string) (s : Store).

Lemma with_copy_config : same_config (this s) (this (with_copy cid s)).
Proof. reflexivity. Qed.

Lemma with_copy_sent : sent (with_copy cid s) = sent s.
Proof. reflexivity. Qed.

Lemma with_copy_cache :
  _messagesCache (this (with_copy cid s)) =
    _messagesCache (this (ensure_entry cid s)).
Proof. reflexivity. Qed.

Lemma copy_loc_unused : arrays (ensure_entry cid s) !! copy_loc cid s = None.
Proof. apply fresh_loc_unused. Qed.

Lemma with_copy_arrays l items :
  arrays s !! l = Some items → arrays (with_copy cid s) !! l = Some items.
Proof.
  intros Hl. apply (ensure_entry_arrays cid) in Hl.
  unfold with_copy; simpl. rewrite lookup_insert_ne; [done|].
  intros <-. by rewrite copy_loc_unused in Hl.
Qed.

(** The copy is an array of its own: no conversation is cached at it. *)
Lemma copy_loc_not_cached cid' :
  wf s → _messagesCache (this (with_copy cid s)) !! cid' ≠
           Some (VArray (copy_loc cid s)).
Proof.
  intros Hwf Hl. rewrite with_copy_cache in Hl.
  destruct (wf_lookup _ _ _ (ensure_entry_wf cid s Hwf) Hl) as [items Hi].
  by rewrite copy_loc_unused in Hi.
Qed.

Lemma with_copy_stored cid' :
  wf s → stored (with_copy cid s) cid' = stored s cid'.
Proof.
  intros Hwf. rewrite <- (ensure_entry_stored cid s cid').
  unfold stored. rewrite with_copy_cache.
  destruct (_ !! cid') as [[l|n|]|] eqn:Hl; try done.
  destruct (wf_lookup _ _ _ (ensure_entry_wf cid s Hwf) Hl) as [items Hi].
  unfold contents, with_copy; simpl. rewrite lookup_insert_ne; [done|].
  intros <-. by rewrite copy_loc_unused in Hi.
Qed.

Lemma with_copy_wf : wf s → wf (with_copy cid s).
Proof.
  intros Hwf cid' v Hv. rewrite with_copy_cache in Hv.
  pose proof (ensure_entry_wf cid s Hwf cid' v Hv) as Hal.
  destruct v as [l|n|]; try done. destruct Hal as [items Hi].
  exists items. unfold with_copy; simpl. rewrite lookup_insert_ne; [done|].
  intros <-. by rewrite copy_loc_unused in Hi.
Qed.

Lemma with_copy_kind cid' :
  kind s cid = KList → kind (with_copy cid s) cid' = kind s cid'.
Proof.
  intros Hkind. rewrite <- (ensure_entry_kind cid s cid' Hkind).
  apply kind_same_cache, with_copy_cache.
Qed.
End with_copy.

(** The store after the assignment of the value that was read, when it is
    not an array. *)
Lemma settled_kind cid v s cid' :
  property (_messagesCache (this s)) cid = Returned (Some v) →
  kind (settled cid v s) cid' = kind s cid'.
Proof.
  intros Hread. unfold kind. simpl.
  by rewrite (property_insert_same _ _ _ _ Hread).
Qed.

Lemma settled_stored cid v s cid' :
  property (_messagesCache (this s)) cid = Returned (Some v) →
  (∀ l, v ≠ VArray l) →
  stored (settled cid v s) cid' = stored s cid'.
Proof.
  intros Hread Hvalue.
  unfold stored; simpl. destruct (decide (cid' = cid)) as [->|Hne].
  - rewrite lookup_insert_eq. unfold property in Hread.
    destruct (_messagesCache (this s) !! cid) as [v'|].
    + injection Hread as ->. by destruct v.
    + destruct v as [l|n|]; [by destruct (Hvalue l)|done|done].
  - by rewrite lookup_insert_ne.
Qed.

Lemma settled_wf cid v s :
  (∀ l, v ≠ VArray l) → wf s → wf (settled cid v s).
Proof.
  intros Hvalue Hwf cid' v' Hv'. simpl in Hv'.
  destruct (decide (cid = cid')) as [->|Hne].
  - rewrite lookup_insert_eq in Hv'. injection Hv' as <-.
    destruct v as [l|n|]; [by destruct (Hvalue l)|done|done].
  - rewrite lookup_insert_ne in Hv' by done. exact (Hwf cid' v' Hv').
Qed.

Lemma preserved_refl s : wf s → preserved s s.
Proof. intros Hwf. split; auto using same_config_refl. Qed.

Lemma preserved_trans s1 s2 s3 :
  preserved s1 s2 → preserved s2 s3 → preserved s1 s3.
Proof.
  intros [_ Hc12 Ha12 Hs12 Hk12] [Hwf Hc23 Ha23 Hs23 Hk23]. split.
  - done.
  - by eapply same_config_trans.
  - auto.
  - intros cid. by rewrite Hs23.
  - intros cid. by rewrite Hk23.
Qed.

Lemma preserved_over s s' cid : preserved s s' → over cid s' = over cid s.
Proof.
  intros [_ Hc _ Hs _]. unfold over.
  by rewrite Hs, (same_config_maxMessages _ _ Hc).
Qed.

Lemma kind_function_read s cid n :
  kind s cid = KFunction n →
  property (_messagesCache (this s)) cid = Returned (Some (VFunction n)).
Proof.
  unfold kind. by destruct (property _ cid) as [[[l|n'|]|]|e|]; try done;
    intros [= ->].
Qed.

Lemma kind_object_prototype_read s cid :
  kind s cid = KObjectPrototype →
  property (_messagesCache (this s)) cid = Returned (Some VObjectPrototype).
Proof.
  unfold kind. by destruct (property _ cid) as [[[l|n'|]|]|e|].
Qed.

Lemma getMessageHistory_preserved cid s :
  wf s →
  preserved s (snd (getMessageHistory cid s)) ∧
  sent (snd (getMessageHistory cid s)) = sent s.
Proof.
  intros Hwf. destruct (kind s cid) as [|n| |] eqn:Hkind.
  - rewrite (getMessageHistory_list _ _ Hkind).
    destruct (over cid s); simpl; (split; [split|done]).
    + by apply with_copy_wf.
    + apply with_copy_config.
    + apply with_copy_arrays.
    + intros cid'. by apply with_copy_stored.
    + intros cid'. by apply with_copy_kind.
    + by apply ensure_entry_wf.
    + apply ensure_entry_config.
    + apply ensure_entry_arrays.
    + apply ensure_entry_stored.
    + intros cid'. by apply ensure_entry_kind.
  - rewrite (getMessageHistory_function _ _ _ Hkind); simpl.
    pose proof (kind_function_read _ _ _ Hkind) as Hread.
    split; [split|done]; try done.
    + by apply settled_wf.
    + intros cid'. by apply settled_stored.
    + intros cid'. by apply settled_kind.
  - rewrite (getMessageHistory_object_prototype _ _ Hkind); simpl.
    pose proof (kind_object_prototype_read _ _ Hkind) as Hread.
    split; [split|done]; try done.
    + by apply settled_wf.
    + intros cid'. by apply settled_stored.
    + intros cid'. by apply settled_kind.
  - rewrite (getMessageHistory_unmodelled _ _ Hkind); simpl.
    split; [by apply preserved_refl|done].
Qed.

Lemma contents_with_copy cid s :
  contents (with_copy cid s) (copy_loc cid s) =
    js_slice (- (_maxMessages (this s) - 1)) (stored s cid).
Proof.
  unfold contents at 1, with_copy; simpl.
  by rewrite lookup_insert_eq, contents_ensure_entry.
Qed.

(** [getMessageHistory] returns an array exactly on an id that reads an
    array or nothing. *)
Lemma getMessageHistory_returns_array cid s l s' :
  getMessageHistory cid s = (Returned (VArray l), s') → kind s cid = KList.
Proof.
  destruct (kind s cid) as [|n| |] eqn:Hkind; [done| | |].
  - rewrite (getMessageHistory_function _ _ _ Hkind).
    by destruct (exceeds _ _).
  - by rewrite (getMessageHistory_object_prototype _ _ Hkind).
  - by rewrite (getMessageHistory_unmodelled _ _ Hkind).
Qed.

(** What a caller sees: the window on the stored elements when the id
    reads an array or nothing, and no list otherwise. *)
Lemma historyOf_eq cid s :
  fst (historyOf cid s) =
    match kind s cid with
    | KList => Returned (window (_maxMessages (this s)) (stored s cid))
    | _ => refused s cid
    end.
Proof.
  unfold historyOf, mbind, M_bind, refused.
  destruct (kind s cid) as [|n| |] eqn:Hkind.
  - rewrite (getMessageHistory_list _ _ Hkind).
    unfold window. fold (over cid s).
    destruct (over cid s); unfold iterate, array_read; simpl.
    + by rewrite contents_with_copy.
    + by rewrite contents_ensure_entry.
  - rewrite (getMessageHistory_function _ _ _ Hkind).
    by destruct (exceeds _ _).
  - by rewrite (getMessageHistory_object_prototype _ _ Hkind).
  - by rewrite (getMessageHistory_unmodelled _ _ Hkind).
Qed.

Lemma historyOf_window cid s :
  kind s cid = KList →
  fst (historyOf cid s) =
    Returned (window (_maxMessages (this s)) (stored s cid)).
Proof. intros Hkind. by rewrite historyOf_eq, Hkind. Qed.

(** A non-empty stored sequence is an array of the cache. *)
Lemma stored_nonempty_kind cid s : stored s cid ≠ [] → kind s cid = KList.
Proof.
  unfold stored.
  destruct (_messagesCache (this s) !! cid) as [[l|n|]|] eqn:Hc; try done.
  intros _. by apply (kind_own_array s cid l).
Qed.

(** Steps that keep the stored sequences, the kinds and the bound keep
    what every caller sees. *)
Lemma historyOf_preserved s s' cid :
  preserved s s' → fst (historyOf cid s') = fst (historyOf cid s).
Proof.
  intros [_ Hc _ Hs Hk]. rewrite !historyOf_eq. unfold refused.
  by rewrite Hk, Hs, (same_config_maxMessages _ _ Hc).
Qed.

(** ** [this.getMessageHistory(conversationId).push(m)] *)

Lemma array_push_stored l m s cid :
  stored (snd (array_push l m s)) cid =
    if decide (_messagesCache (this s) !! cid = Some (VArray l))
    then stored s cid ++ [m]
    else stored s cid.
Proof.
  unfold stored, array_push; simpl.
  destruct (_messagesCache (this s) !! cid) as [[l'|n|]|] eqn:Hc;
    try by case_decide.
  unfold contents at 1; simpl. case_decide as Heq.
  - injection Heq as ->. by rewrite lookup_insert_eq.
  - rewrite lookup_insert_ne; [done|]. congruence.
Qed.

Lemma array_push_wf l m s : wf s → wf (snd (array_push l m s)).
Proof.
  intros Hwf cid v Hv. simpl in *. pose proof (Hwf cid v Hv) as Hal.
  destruct v as [l'|n|]; try done. simpl in *.
  destruct (decide (l = l')) as [->|Hne].
  - rewrite lookup_insert_eq. eauto.
  - by rewrite lookup_insert_ne.
Qed.

Section push_history.
Context (cid : string) (m : ChatMessage) (s : Store).

Lemma push_history_list :
  kind s cid = KList →
  push_history cid m s =
    if over cid s
    then array_push (copy_loc cid s) m (with_copy cid s)
    else array_push (cached_loc cid s) m (ensure_entry cid s).
Proof.
  intros Hkind. unfold push_history, mbind, M_bind.
  rewrite (getMessageHistory_list _ _ Hkind).
  by destruct (over cid s).
Qed.

Lemma push_history_returns :
  kind s cid = KList → fst (push_history cid m s) = Returned ().
Proof.
  intros Hkind. rewrite (push_history_list Hkind). by destruct (over cid s).
Qed.

Lemma push_history_config :
  kind s cid = KList →
  same_config (this s) (this (snd (push_history cid m s))).
Proof.
  intros Hkind. rewrite (push_history_list Hkind). by destruct (over cid s).
Qed.

Lemma push_history_sent :
  kind s cid = KList → sent (snd (push_history cid m s)) = sent s.
Proof.
  intros Hkind. rewrite (push_history_list Hkind). by destruct (over cid s).
Qed.

Lemma push_history_kind cid' :
  kind s cid = KList → kind (snd (push_history cid m s)) cid' = kind s cid'.
Proof.
  intros Hkind. rewrite (push_history_list Hkind). destruct (over cid s).
  - rewrite <- (with_copy_kind cid s cid' Hkind). by apply kind_same_cache.
  - rewrite <- (ensure_entry_kind cid s cid' Hkind). by apply kind_same_cache.
Qed.

Lemma push_history_wf :
  kind s cid = KList → wf s → wf (snd (push_history cid m s)).
Proof.
  intros Hkind Hwf. rewrite (push_history_list Hkind). destruct (over cid s).
  - by apply array_push_wf, with_copy_wf.
  - by apply array_push_wf, ensure_entry_wf.
Qed.

(** Within the window the push reaches the stored array. *)
Lemma push_history_lands :
  kind s cid = KList → over cid s = false →
  stored (snd (push_history cid m s)) cid = stored s cid ++ [m].
Proof.
  intros Hkind Hover.
  rewrite (push_history_list Hkind), Hover, array_push_stored.
  rewrite ensure_entry_cached, decide_True by done.
  by rewrite ensure_entry_stored.
Qed.

(** Past the window the push goes to the copy, and no stored history
    sees it. *)
Lemma push_history_lost cid' :
  kind s cid = KList → wf s → over cid s = true →
  stored (snd (push_history cid m s)) cid' = stored s cid'.
Proof.
  intros Hkind Hwf Hover.
  rewrite (push_history_list Hkind), Hover, array_push_stored.
  rewrite decide_False by by apply copy_loc_not_cached.
  by apply with_copy_stored.
Qed.
End push_history.

(** ** [buildMessage] and [sendMessage] as equations *)

(** The loop of [buildMessage] appends the re-emitted messages in order. *)
Lemma foldl_reemit (init : list RequestMessage) (msgs : list ChatMessage) :
  foldl (λ acc msg, acc ++ [reemit msg]) init msgs = init ++ map reemit msgs.
Proof.
  revert init. induction msgs as [|msg msgs IH]; intros init; simpl.
  - by rewrite app_nil_r.
  - by rewrite IH, <- app_assoc.
Qed.

Lemma buildMessage_list cid message systemMessage s :
  kind s cid = KList →
  buildMessage cid message systemMessage s =
    (Returned
       (composed (this s) systemMessage
          (window (_maxMessages (this s)) (stored s cid)) message),
     snd (getMessageHistory cid s)).
Proof.
  intros Hkind. unfold buildMessage, mbind, M_bind, get_this.
  rewrite (getMessageHistory_list _ _ Hkind).
  unfold window. fold (over cid s).
  destruct (over cid s);
    unfold iterate, array_read, mret, M_ret, composed, last_entry; simpl;
    rewrite foldl_reemit; simpl.
  - by rewrite contents_with_copy.
  - by rewrite contents_ensure_entry.
Qed.

Lemma buildMessage_refused cid message systemMessage s :
  kind s cid ≠ KList →
  buildMessage cid message systemMessage s =
    (refused s cid, snd (getMessageHistory cid s)).
Proof.
  intros Hkind. unfold buildMessage, mbind, M_bind, get_this, refused.
  destruct (kind s cid) as [|n| |] eqn:Hk; [done| | |].
  - rewrite (getMessageHistory_function _ _ _ Hk).
    by destruct (exceeds _ _).
  - by rewrite (getMessageHistory_object_prototype _ _ Hk).
  - by rewrite (getMessageHistory_unmodelled _ _ Hk).
Qed.

Lemma called_config chatRequest opts s :
  same_config (this s) (this (called chatRequest opts s)).
Proof.
  unfold called; simpl.
  destruct (kind s (req_conversationId chatRequest)) as [|n| |] eqn:Hk.
  - rewrite (getMessageHistory_list _ _ Hk). by destruct (over _ s).
  - by rewrite (getMessageHistory_function _ _ _ Hk).
  - by rewrite (getMessageHistory_object_prototype _ _ Hk).
  - rewrite (getMessageHistory_unmodelled _ _ Hk). apply same_config_refl.
Qed.

Lemma called_kind chatRequest opts s cid' :
  kind s (req_conversationId chatRequest) = KList →
  kind (called chatRequest opts s) cid' = kind s cid'.
Proof.
  intros Hk. unfold called.
  rewrite (getMessageHistory_list _ _ Hk). destruct (over _ s); simpl.
  - rewrite <- (with_copy_kind _ s cid' Hk). by apply kind_same_cache.
  - rewrite <- (ensure_entry_kind _ s cid' Hk). by apply kind_same_cache.
Qed.

(** A call on an id that reads neither an array nor nothing ends in
    [buildMessage], before any request. *)
Lemma sendMessage_refused chatRequest opts outcome s :
  kind s (req_conversationId chatRequest) ≠ KList →
  sendMessage chatRequest opts outcome s =
    (refused s (req_conversationId chatRequest),
     snd (getMessageHistory (req_conversationId chatRequest) s)).
Proof.
  intros Hkind. unfold sendMessage, mbind at 1, M_bind at 1.
  rewrite (buildMessage_refused _ _ _ _ Hkind).
  unfold refused. by destruct (kind s _).
Qed.

Lemma sendMessage_list chatRequest opts outcome s :
  kind s (req_conversationId chatRequest) = KList →
  sendMessage chatRequest opts outcome s =
    match verdict (_debug (this s)) outcome with
    | inl e => (Threw (rethrown e), called chatRequest opts s)
    | inr (detail, reply) =>
        (Returned
           {| res_content := msg_content reply;
              res_detail := detail;
              res_role := msg_role reply |},
         snd (push_history (req_conversationId chatRequest)
                (incoming reply)
                (snd (push_history (req_conversationId chatRequest)
                        (outgoing chatRequest)
                        (called chatRequest opts s)))))
    end.
Proof.
  intros Hkind. unfold sendMessage, mbind at 1, M_bind at 1.
  rewrite (buildMessage_list _ _ _ _ Hkind).
  fold (submitted chatRequest opts s).
  unfold try_catch, mbind at 1, M_bind at 1, createChatCompletion.
  fold (called chatRequest opts s).
  pose proof (same_config_debug _ _ (called_config chatRequest opts s)) as Hdebug.
  pose proof (called_kind chatRequest opts s (req_conversationId chatRequest)
                Hkind) as Hkind2.
  rewrite Hkind in Hkind2.
  set (cid := req_conversationId chatRequest) in *.
  set (s2 := called chatRequest opts s) in *.
  unfold verdict.
  destruct outcome as [completion|f]; [|done].
  unfold mbind at 1, M_bind at 1, get_this. rewrite Hdebug.
  unfold mbind at 1, M_bind at 1, log_json.
  destruct (_debug (this s));
    [destruct (stringify_throws completion) as [msg|]; [done|]|];
    (unfold mbind at 1, M_bind at 1, first_message;
     destruct (data completion) as [detail|]; [|done];
     destruct (choices detail) as [[|choice rest]|]; [done| |done];
     destruct (message choice) as [reply|]; [|done];
     fold (outgoing chatRequest); fold (incoming reply);
     pose proof (push_history_returns cid (outgoing chatRequest) s2 Hkind2)
       as Hr3;
     pose proof (push_history_kind cid (outgoing chatRequest) s2 cid Hkind2)
       as Hk3; rewrite Hkind2 in Hk3;
     pose proof (push_history_returns cid (incoming reply) _ Hk3) as Hr4;
     unfold push_history, mbind, M_bind, outgoing, incoming in *; simpl in *;
     destruct (getMessageHistory cid s2) as [[h| |] s3]; try done;
     simpl in *;
     destruct (value_push h _ s3) as [[[]| |] s3'];
     try done; simpl in *;
     destruct (getMessageHistory cid s3') as [[h'| |] s4]; try done;
     simpl in *;
     by destruct (value_push h' _ s4) as [[[]| |] s4']).
Qed.

Lemma refused_not_returned {A} s cid (a : A) :
  kind s cid ≠ KList → refused s cid ≠ Returned a.
Proof. unfold refused. by destruct (kind s cid). Qed.

Lemma getMessageHistory_sent cid s :
  sent (snd (getMessageHistory cid s)) = sent s.
Proof.
  destruct (kind s cid) as [|n| |] eqn:Hk.
  - rewrite (getMessageHistory_list _ _ Hk). by destruct (over cid s).
  - by rewrite (getMessageHistory_function _ _ _ Hk).
  - by rewrite (getMessageHistory_object_prototype _ _ Hk).
  - by rewrite (getMessageHistory_unmodelled _ _ Hk).
Qed.

Lemma getMessageHistory_config cid s :
  same_config (this s) (this (snd (getMessageHistory cid s))).
Proof.
  destruct (kind s cid) as [|n| |] eqn:Hk.
  - rewrite (getMessageHistory_list _ _ Hk). by destruct (over cid s).
  - by rewrite (getMessageHistory_function _ _ _ Hk).
  - by rewrite (getMessageHistory_object_prototype _ _ Hk).
  - rewrite (getMessageHistory_unmodelled _ _ Hk). apply same_config_refl.
Qed.

(** ** The store once the request has gone out *)

Section called.
Context (chatRequest : ChatMessageRequest) (opts : option ChatCompletionOpts).
Context (s : Store).

Lemma called_sent :
  sent (called chatRequest opts s) = sent s ++ [submitted chatRequest opts s].
Proof. unfold called; simpl. by rewrite getMessageHistory_sent. Qed.

Lemma called_preserved : wf s → preserved s (called chatRequest opts s).
Proof.
  intros Hwf.
  destruct (getMessageHistory_preserved (req_conversationId chatRequest) s Hwf)
    as [[] _].
  by split.
Qed.

Lemma called_stored_within cid' :
  kind s (req_conversationId chatRequest) = KList →
  over (req_conversationId chatRequest) s = false →
  stored (called chatRequest opts s) cid' = stored s cid'.
Proof.
  intros Hkind Hover. unfold called, stored, contents; simpl.
  rewrite (getMessageHistory_list _ _ Hkind), Hover.
  apply ensure_entry_stored.
Qed.

Lemma called_over_within :
  kind s (req_conversationId chatRequest) = KList →
  over (req_conversationId chatRequest) s = false →
  over (req_conversationId chatRequest) (called chatRequest opts s) = false.
Proof.
  intros Hkind Hover. unfold over.
  rewrite called_stored_within,
    (same_config_maxMessages _ _ (called_config chatRequest opts s)); done.
Qed.
End called.

(** A call returns only on an id that reads an array or nothing. *)
Lemma sendMessage_returned_kind chatRequest opts outcome s res s' :
  sendMessage chatRequest opts outcome s = (Returned res, s') →
  kind s (req_conversationId chatRequest) = KList.
Proof.
  intros Hcall.
  destruct (decide (kind s (req_conversationId chatRequest) = KList))
    as [|Hne]; [done|].
  rewrite (sendMessage_refused _ _ _ _ Hne) in Hcall.
  injection Hcall as Hr _. by apply refused_not_returned in Hr.
Qed.

(** A call that returns ended the [try] block with a body and a reply. *)
Lemma sendMessage_returned_verdict chatRequest opts outcome s res s' :
  sendMessage chatRequest opts outcome s = (Returned res, s') →
  verdict (_debug (this s)) outcome =
    inr (res_detail res,
         {| msg_role := res_role res; msg_content := res_content res |}).
Proof.
  intros Hcall. pose proof (sendMessage_returned_kind _ _ _ _ _ _ Hcall) as Hk.
  rewrite (sendMessage_list _ _ _ _ Hk) in Hcall.
  destruct (verdict _ outcome) as [e|[detail [r c]]]; [done|].
  by injection Hcall as <- _.
Qed.

Lemma sendMessage_sent_list chatRequest opts outcome s :
  kind s (req_conversationId chatRequest) = KList →
  sent (snd (sendMessage chatRequest opts outcome s)) =
    sent s ++ [submitted chatRequest opts s].
Proof.
  intros Hkind. rewrite (sendMessage_list _ _ _ _ Hkind).
  pose proof (called_kind chatRequest opts s (req_conversationId chatRequest)
                Hkind) as Hk2. rewrite Hkind in Hk2.
  destruct (verdict _ outcome) as [e|[detail reply]]; [apply called_sent|].
  simpl. rewrite !push_history_sent; [apply called_sent|done|].
  by rewrite push_history_kind.
Qed.

Lemma sendMessage_sent_refused chatRequest opts outcome s :
  kind s (req_conversationId chatRequest) ≠ KList →
  sent (snd (sendMessage chatRequest opts outcome s)) = sent s.
Proof.
  intros Hkind. rewrite (sendMessage_refused _ _ _ _ Hkind).
  apply getMessageHistory_sent.
Qed.

Lemma sendMessage_config chatRequest opts outcome s :
  same_config (this s) (this (snd (sendMessage chatRequest opts outcome s))).
Proof.
  destruct (decide (kind s (req_conversationId chatRequest) = KList))
    as [Hkind|Hne].
  - rewrite (sendMessage_list _ _ _ _ Hkind).
    pose proof (called_config chatRequest opts s) as Hc.
    pose proof (called_kind chatRequest opts s
                  (req_conversationId chatRequest) Hkind) as Hk2.
    rewrite Hkind in Hk2.
    destruct (verdict _ outcome) as [e|[detail reply]]; [done|].
    simpl. eapply same_config_trans; [exact Hc|].
    eapply same_config_trans; apply push_history_config; [done|].
    by rewrite push_history_kind.
  - rewrite (sendMessage_refused _ _ _ _ Hne). apply getMessageHistory_config.
Qed.

(** A call that does not return has pushed nothing. *)
Lemma sendMessage_not_returned_preserved chatRequest opts outcome s :
  wf s →
  (∀ res, fst (sendMessage chatRequest opts outcome s) ≠ Returned res) →
  preserved s (snd (sendMessage chatRequest opts outcome s)).
Proof.
  intros Hwf Hnot.
  destruct (decide (kind s (req_conversationId chatRequest) = KList))
    as [Hkind|Hne].
  - rewrite (sendMessage_list _ _ _ _ Hkind) in *.
    destruct (verdict _ outcome) as [e|[detail reply]].
    + by apply called_preserved.
    + by destruct (Hnot _ eq_refl).
  - rewrite (sendMessage_refused _ _ _ _ Hne).
    by apply getMessageHistory_preserved.
Qed.

(** What a call that returns has stored for its conversation: both
    messages while the array stays within [_maxMessages - 1] at each push,
    and only what was pushed onto the cached array otherwise. *)
Lemma sendMessage_returned_stored chatRequest opts outcome s res s' :
  wf s →
  sendMessage chatRequest opts outcome s = (Returned res, s') →
  let cid := req_conversationId chatRequest in
  let reply := {| msg_role := res_role res; msg_content := res_content res |} in
  stored s' cid =
    stored s cid ++
      if over cid s then []
      else if Z.of_nat (length (stored s cid ++ [outgoing chatRequest]))
                >? _maxMessages (this s) - 1
           then [outgoing chatRequest]
           else [outgoing chatRequest; incoming reply].
Proof.
  intros Hwf Hcall.
  pose proof (sendMessage_returned_kind _ _ _ _ _ _ Hcall) as Hkind.
  rewrite (sendMessage_list _ _ _ _ Hkind) in Hcall.
  destruct (verdict _ outcome) as [e|[detail [r c]]]; [done|].
  injection Hcall as <- <-; simpl.
  set (cid := req_conversationId chatRequest) in *.
  set (s2 := called chatRequest opts s).
  set (s3 := snd (push_history cid (outgoing chatRequest) s2)).
  pose proof (called_preserved chatRequest opts s Hwf) as Hpres. fold s2 in Hpres.
  pose proof (preserved_over _ _ cid Hpres) as Hover2.
  assert (kind s2 cid = KList) as Hk2 by (rewrite <- Hkind; apply Hpres).
  assert (kind s3 cid = KList) as Hk3.
  { unfold s3. by rewrite push_history_kind. }
  assert (wf s3) as Hwf3 by (apply push_history_wf; [done|apply Hpres]).
  assert (_maxMessages (this s3) = _maxMessages (this s)) as Hmax3.
  { unfold s3.
    rewrite (same_config_maxMessages _ _ (push_history_config _ _ _ Hk2)).
    apply same_config_maxMessages, Hpres. }
  destruct (over cid s) eqn:Hover.
  - assert (stored s3 cid = stored s cid) as Hs3.
    { unfold s3. rewrite push_history_lost; [apply Hpres|done|apply Hpres|done]. }
    rewrite push_history_lost, Hs3, app_nil_r; [done|done|done|].
    unfold over. by rewrite Hs3, Hmax3.
  - assert (stored s3 cid = stored s cid ++ [outgoing chatRequest]) as Hs3.
    { unfold s3. rewrite push_history_lands by done. f_equal. apply Hpres. }
    assert (over cid s3 =
            (Z.of_nat (length (stored s cid ++ [outgoing chatRequest]))
               >? _maxMessages (this s) - 1)) as Hover3.
    { unfold over. by rewrite Hs3, Hmax3. }
    rewrite <- Hover3. destruct (over cid s3) eqn:Ho3.
    + by rewrite push_history_lost.
    + rewrite push_history_lands, Hs3, <- app_assoc; done.
Qed.

(** ** Stores that calls can reach are well formed *)

Lemma fresh_store_wf t : _messagesCache t = ∅ → wf (fresh_store t).
Proof. intros Hempty cid v. simpl. by rewrite Hempty, lookup_empty. Qed.

Lemma new_array_wf items s : wf s → wf (snd (new_array items s)).
Proof.
  intros Hwf cid v Hv. simpl in *. pose proof (Hwf cid v Hv) as Hal.
  destruct v as [l|n|]; try done. simpl in *.
  destruct (decide (fresh (dom (arrays s)) = l)) as [->|Hne].
  - rewrite lookup_insert_eq. eauto.
  - by rewrite lookup_insert_ne.
Qed.

Lemma setMessageHistory_wf cid l s :
  wf s → is_Some (arrays s !! l) → wf (snd (setMessageHistory cid l s)).
Proof.
  intros Hwf Hl cid' v' Hv'. simpl in *.
  destruct (decide (cid = cid')) as [->|Hne].
  - rewrite lookup_insert_eq in Hv'. by injection Hv' as <-.
  - rewrite lookup_insert_ne in Hv' by done. exact (Hwf cid' v' Hv').
Qed.

Lemma getMessageHistory_wf cid s : wf s → wf (snd (getMessageHistory cid s)).
Proof.
  intros Hwf. by destruct (getMessageHistory_preserved cid s Hwf) as [[] _].
Qed.

Lemma sendMessage_wf chatRequest opts outcome s :
  wf s → wf (snd (sendMessage chatRequest opts outcome s)).
Proof.
  intros Hwf.
  destruct (decide (kind s (req_conversationId chatRequest) = KList))
    as [Hkind|Hne].
  - rewrite (sendMessage_list _ _ _ _ Hkind).
    pose proof (called_preserved chatRequest opts s Hwf) as [Hwf2 _ _ _ Hk2].
    specialize (Hk2 (req_conversationId chatRequest)). rewrite Hkind in Hk2.
    destruct (verdict _ outcome) as [e|[detail reply]]; [done|].
    simpl. apply push_history_wf; [by rewrite push_history_kind|].
    by apply push_history_wf.
  - rewrite (sendMessage_refused _ _ _ _ Hne). by apply getMessageHistory_wf.
Qed.


(** ** The constructor *)

Lemma constructor_throws_iff opts :
  (∃ e, constructor opts = inl e) ↔ js_not (apiKey opts) = true.
Proof.
  unfold constructor. destruct (js_not (apiKey opts)); split; eauto.
  - by intros [e ?].
  - done.
Qed.

Lemma js_not_true_iff v : js_not v = true ↔ v = None ∨ v = Some "".
Proof.
  destruct v as [[|a k]|]; simpl; split; intros H; auto; try discriminate;
    destruct H; discriminate.
Qed.

(** C9: construction with the empty string as [apiKey] throws the same
    missing-credential error as construction without an [apiKey], whatever
    the other options are. *)
Theorem C9_empty_apiKey_is_missing dbg cp sm mm :
  let with_key key :=
    {| apiKey := key; debug := dbg; completionParams := cp;
       systemMessage := sm; maxMessages := mm |} in
  constructor (with_key (Some "")) = inl missing_apiKey ∧
  constructor (with_key None) = inl missing_apiKey.
Proof. by split. Qed.

(** C7, as stated, fails: an [apiKey] is supplied (the empty string), and
    construction throws all the same. *)
Lemma C7_counterexample :
  let opts := only_key (Some "") in
  ¬ ((∃ e, constructor opts = inl e) ↔ apiKey opts = None).
Proof.
  intros opts [Hthrows _]. assert (apiKey opts = None) as Hnone; [|done].
  apply Hthrows. by exists missing_apiKey.
Qed.

(** C7, amended: construction throws, and yields no instance, exactly when
    the [apiKey] is absent or the empty string; with a non-empty [apiKey]
    and nothing else it yields an instance holding temperature 0.8, top_p
    1.0, presence_penalty 1.0, the system message "You are a helpful
    assistant." and 100 retained messages. *)
Theorem C7_constructor_throws_iff_and_defaults :
  (∀ opts,
     (∃ e, constructor opts = inl e) ↔
     (apiKey opts = None ∨ apiKey opts = Some "")) ∧
  (∀ a key, ∃ t,
     constructor (only_key (Some (String a key))) = inr t ∧
     _apiKey t = String a key ∧
     _completionParams t !! "temperature" = Some (PNumber (Qmake 8 10)) ∧
     _completionParams t !! "top_p" = Some (PNumber (Qmake 1 1)) ∧
     _completionParams t !! "presence_penalty" = Some (PNumber (Qmake 1 1)) ∧
     _systemMessage t = "You are a helpful assistant." ∧
     _maxMessages t = 100 ∧
     _messagesCache t = ∅).
Proof.
  split.
  - intros opts. rewrite constructor_throws_iff. apply js_not_true_iff.
  - intros a key. eexists. split; [reflexivity|]. simpl.
    repeat split; by vm_compute.
Qed.

(** ** The window of [getMessageHistory] *)

(** With [_maxMessages] at least 2, a stored array longer than
    [_maxMessages - 1] is read as its last [_maxMessages - 1] elements, in
    their order. *)
Lemma historyOf_most_recent cid s :
  kind s cid = KList →
  2 ≤ _maxMessages (this s) →
  _maxMessages (this s) - 1 < Z.of_nat (length (stored s cid)) →
  fst (historyOf cid s) =
    Returned (drop (length (stored s cid)
                    - Z.to_nat (_maxMessages (this s) - 1))
                (stored s cid)).
Proof.
  intros Hkind Hmax Hlen. rewrite historyOf_window by done. f_equal.
  by apply window_most_recent.
Qed.

(** C8: with [maxMessages = 1] nothing is trimmed: a conversation with a
    non-empty stored sequence is read back whole, not as its last 0
    messages, since the slice bound is [-0]. *)
Theorem C8_maxMessages_one_returns_all cid s :
  _maxMessages (this s) = 1 →
  (0 < length (stored s cid))%nat →
  over cid s = true ∧
  js_slice (- (_maxMessages (this s) - 1)) (stored s cid) = stored s cid ∧
  fst (historyOf cid s) = Returned (stored s cid) ∧
  fst (historyOf cid s) ≠ Returned [].
Proof.
  intros Hmax Hlen.
  assert (fst (historyOf cid s) = Returned (stored s cid)) as Hall.
  { rewrite historyOf_window, Hmax; [f_equal; apply window_one|].
    apply stored_nonempty_kind. intros Hnil. rewrite Hnil in Hlen.
    simpl in Hlen. lia. }
  repeat split.
  - unfold over. rewrite Hmax. apply Z.gtb_lt. lia.
  - rewrite Hmax. apply js_slice_zero.
  - done.
  - rewrite Hall. intros [= Hnil]. rewrite Hnil in Hlen. simpl in Hlen. lia.
Qed.

(** C8 at a conversation with two stored messages. *)
Lemma C8_witness :
  let t := assigned (key_and_max "k" 1) in
  let s := restored t "c1" [said user (Some "u") "q0"; said assistant None "a0"] in
  over "c1" s = true ∧
  js_slice (- (_maxMessages (this s) - 1)) (stored s "c1") = stored s "c1" ∧
  fst (historyOf "c1" s) = Returned (stored s "c1") ∧
  fst (historyOf "c1" s) ≠ Returned [].
Proof.
  intros t s. apply (C8_maxMessages_one_returns_all "c1" s).
  - reflexivity.
  - vm_compute. lia.
Defined.

(** ** A call that throws *)

(** C5: a [sendMessage] that throws leaves the stored history of its
    conversation, and of every other one, as it was: every array that
    existed keeps its elements, and [getMessageHistory] reads the same.
    (A conversation that had no entry may have got an empty one.) *)
Theorem C5_failure_keeps_history chatRequest opts outcome s e :
  wf s →
  fst (sendMessage chatRequest opts outcome s) = Threw e →
  (∀ cid, stored (snd (sendMessage chatRequest opts outcome s)) cid
          = stored s cid) ∧
  (∀ l items, arrays s !! l = Some items →
     arrays (snd (sendMessage chatRequest opts outcome s)) !! l = Some items) ∧
  (∀ cid, fst (historyOf cid (snd (sendMessage chatRequest opts outcome s)))
          = fst (historyOf cid s)).
Proof.
  intros Hwf Hthrew.
  assert (preserved s (snd (sendMessage chatRequest opts outcome s))) as Hpres.
  { apply sendMessage_not_returned_preserved; [done|].
    intros res. by rewrite Hthrew. }
  split; [apply Hpres|]. split; [apply Hpres|].
  intros cid. by apply historyOf_preserved.
Qed.

(** C5 at a rejected call on a conversation with two stored messages. *)
Lemma C5_witness :
  let t := assigned (only_key (Some "k")) in
  let s := restored t "c1" [said user (Some "u") "q0"; said assistant None "a0"] in
  let failure :=
    {| fail_message := "Request failed with status code 401";
       fail_type := Some "invalid_request_error";
       fail_param := None; fail_code := Some "invalid_api_key" |} in
  let call := sendMessage (ask "c1" "q1") None (Rejected failure) s in
  (∀ cid, stored (snd call) cid = stored s cid) ∧
  (∀ l items, arrays s !! l = Some items →
     arrays (snd call) !! l = Some items) ∧
  (∀ cid, fst (historyOf cid (snd call)) = fst (historyOf cid s)).
Proof.
  intros t s failure call.
  apply (C5_failure_keeps_history (ask "c1" "q1") None (Rejected failure) s
           (rethrown (ThrownFailure failure))).
  - apply (bool_decide_unpack (wf s)). by vm_compute.
  - by vm_compute.
Defined.






(** ** What is sent *)

Lemma role_string_truthy r : truthy (PString (role_string r)) = true.
Proof. by destruct r. Qed.

(** With options that have none of its keys, the last entry is the
    request's. *)
Lemma last_entry_typed name text role opts :
  no_message_key opts →
  last_entry (message_object name text role opts) =
    {| m_name := PString name; m_role := PString (role_string role);
       m_content := PString text |}.
Proof.
  intros (Hname & Hrole & Hcontent).
  unfold last_entry, message_object, get_property, spread.
  rewrite !lookup_union_r by done.
  rewrite lookup_insert_eq.
  rewrite (lookup_insert_ne _ "name" "role"), (lookup_insert_ne _ "content" "role"),
    lookup_insert_eq by done.
  rewrite (lookup_insert_ne _ "name" "content"), lookup_insert_eq by done.
  cbn [default Datatypes.id]. unfold Datatypes.id. by rewrite role_string_truthy.
Qed.






(** C2, at a failing input.  The instance has the default completion
    parameters and the call asks for model ["gpt-4"] and temperature 0.2.
    Merged key by key the parameters would hold those two and the default
    [top_p]; the request that goes out holds the instance's model and no
    other parameter. *)
Theorem C2_options_do_not_reach_the_request :
  let t := assigned (only_key (Some "k")) in
  let opts : ChatCompletionOpts :=
    <["model" := PString "gpt-4"]>
      {["temperature" := PNumber (Qmake 2 10)]} in
  let merged := spread (_completionParams t) opts in
  constructor (only_key (Some "k")) = inr t ∧
  merged !! "model" = Some (PString "gpt-4") ∧
  merged !! "temperature" = Some (PNumber (Qmake 2 10)) ∧
  merged !! "top_p" = Some (PNumber (Qmake 1 1)) ∧
  ∃ request,
    sent (snd (sendMessage (ask "c1" "hi") (Some opts) (answer "hello")
                 (fresh_store t))) = [request] ∧
    params request !! "model" = Some (PString "gpt-3.5-turbo") ∧
    params request !! "temperature" = None ∧
    params request !! "top_p" = None.
Proof.
  intros t opts merged. repeat split; try by vm_compute.
  eexists. split.
  - rewrite sendMessage_sent_list by by vm_compute. reflexivity.
  - repeat split; by vm_compute.
Qed.

(** C3, at a failing input.  With [maxMessages = 3], two calls that return
    leave three messages stored, not four: the second reply was pushed
    onto the copy [slice] made.  [getMessageHistory] then returns the first
    reply and the second question, not the second question and its reply. *)
Theorem C3_second_reply_is_lost :
  let t := assigned (key_and_max "k" 3) in
  let call1 := sendMessage (ask "c1" "q1") None (answer "a1") (fresh_store t) in
  let call2 := sendMessage (ask "c1" "q2") None (answer "a2") (snd call1) in
  constructor (key_and_max "k" 3) = inr t ∧
  res_content <$> returned (fst call1) = Some "a1" ∧
  res_content <$> returned (fst call2) = Some "a2"
  ∧ stored (snd call2) "c1" =
      [said user (Some "u") "q1"; said assistant None "a1";
       said user (Some "u") "q2"]
  ∧ fst (historyOf "c1" (snd call2)) =
      Returned [said assistant None "a1"; said user (Some "u") "q2"]
  ∧ fst (historyOf "c1" (snd call2)) ≠
      Returned [said user (Some "u") "q2"; said assistant None "a2"].
Proof. repeat split; by vm_compute. Qed.

(** C1, as stated, fails.  With [maxMessages = 3] and one message stored,
    a call that returns stores both new messages, and [getMessageHistory]
    goes from one entry to two, not three: it returns the last two of the
    three stored. *)
Lemma C1_counterexample :
  let t := assigned (key_and_max "k" 3) in
  let s := restored t "c1" [said assistant None "a0"] in
  let call := sendMessage (ask "c1" "q1") None (answer "a1") s in
  constructor (key_and_max "k" 3) = inr t ∧
  fst (historyOf "c1" s) = Returned [said assistant None "a0"] ∧
  res_content <$> returned (fst call) = Some "a1" ∧
  fst (historyOf "c1" (snd call)) =
    Returned [said user (Some "u") "q1"; said assistant None "a1"] ∧
  fst (historyOf "c1" (snd call)) ≠
    Returned ([said assistant None "a0"] ++
              [said user (Some "u") "q1"; said assistant None "a1"]).
Proof. repeat split; by vm_compute. Qed.

(** C1, amended: when the conversation holds at most [maxMessages - 3]
    stored messages, so that two more still fit in the [maxMessages - 1]
    that [getMessageHistory] returns, then after a [sendMessage] that
    returns, [getMessageHistory] returns what it returned before followed
    by the outgoing message (the request's text and name, its role or
    ["user"]) and then the incoming message (the returned content and
    role). *)
Theorem C1_history_grows_by_two_within_cap chatRequest opts outcome s res s' :
  Z.of_nat (length (stored s (req_conversationId chatRequest))) + 2
    ≤ _maxMessages (this s) - 1 →
  sendMessage chatRequest opts outcome s = (Returned res, s') →
  ∃ before,
    fst (historyOf (req_conversationId chatRequest) s) = Returned before ∧
    fst (historyOf (req_conversationId chatRequest) s') =
      Returned
        (before ++
           [{| content := req_text chatRequest;
               name := Some (req_name chatRequest);
               role := default user (req_role chatRequest);
               others := ∅ |};
            {| content := res_content res; role := res_role res;
               name := None; others := ∅ |}]).
Proof.
  set (cid := req_conversationId chatRequest). intros Hfit Hcall.
  pose proof (sendMessage_returned_kind _ _ _ _ _ _ Hcall) as Hkind.
  fold cid in Hkind. revert Hcall.
  rewrite (sendMessage_list _ _ _ _ Hkind).
  destruct (verdict _ outcome) as [e|[detail reply]]; [done|].
  intros [= <- <-]; simpl. fold cid. fold (outgoing chatRequest).
  change {| content := msg_content reply; role := msg_role reply;
            name := None; others := ∅ |} with (incoming reply).
  set (s2 := called chatRequest opts s).
  set (s3 := snd (push_history cid (outgoing chatRequest) s2)).
  set (s4 := snd (push_history cid (incoming reply) s3)).
  assert (over cid s = false) as Hover.
  { apply over_false. lia. }
  assert (kind s2 cid = KList) as Hkind2 by by (unfold s2; rewrite called_kind).
  assert (kind s3 cid = KList) as Hkind3
    by by (unfold s3; rewrite push_history_kind).
  assert (kind s4 cid = KList) as Hkind4
    by by (unfold s4; rewrite push_history_kind).
  assert (_maxMessages (this s2) = _maxMessages (this s)) as Hmax2
    by apply same_config_maxMessages, called_config.
  assert (_maxMessages (this s3) = _maxMessages (this s)) as Hmax3.
  { unfold s3.
    by rewrite (same_config_maxMessages _ _
                  (push_history_config _ _ _ Hkind2)). }
  assert (_maxMessages (this s4) = _maxMessages (this s)) as Hmax4.
  { unfold s4.
    by rewrite (same_config_maxMessages _ _
                  (push_history_config _ _ _ Hkind3)). }
  assert (stored s3 cid = stored s cid ++ [outgoing chatRequest]) as Hs3.
  { unfold s3. rewrite push_history_lands;
      [|done|by apply called_over_within].
    f_equal. by apply called_stored_within. }
  assert (stored s4 cid =
          stored s cid ++ [outgoing chatRequest; incoming reply]) as Hs4.
  { unfold s4. rewrite push_history_lands; [|done|].
    - by rewrite Hs3, <- app_assoc.
    - apply over_false. rewrite Hs3, Hmax3, length_app. simpl. lia. }
  exists (stored s cid). rewrite !historyOf_window, Hs4, Hmax4 by done.
  split; f_equal.
  - apply window_fits. lia.
  - apply window_fits. rewrite length_app. simpl. lia.
Qed.

(** C1, amended, at [maxMessages = 5] and one stored message. *)
Lemma C1_witness :
  let t := assigned (key_and_max "k" 5) in
  let s := restored t "c1" [said assistant None "a0"] in
  let call := sendMessage (ask "c1" "q1") None (answer "a1") s in
  ∃ before,
    fst (historyOf "c1" s) = Returned before ∧
    fst (historyOf "c1" (snd call)) =
      Returned (before ++
                  [said user (Some "u") "q1"; said assistant None "a1"]).
Proof.
  intros t s call.
  apply (C1_history_grows_by_two_within_cap (ask "c1" "q1") None
           (answer "a1") s (answered "a1") (snd call)).
  - vm_compute. discriminate.
  - vm_compute. reflexivity.
Defined.

(** ** What the options leave alone *)

(** A push goes the same way whatever requests have been handed to the
    client. *)
Lemma push_history_frame cid m s requests :
  kind s cid = KList →
  push_history cid m
    {| this := this s; arrays := arrays s; sent := requests |} =
    (fst (push_history cid m s),
     {| this := this (snd (push_history cid m s));
        arrays := arrays (snd (push_history cid m s));
        sent := requests |}).
Proof.
  intros Hkind.
  rewrite (push_history_list cid m s Hkind).
  rewrite (push_history_list cid m
             {| this := this s; arrays := arrays s; sent := requests |} Hkind).
  change (over cid {| this := this s; arrays := arrays s; sent := requests |})
    with (over cid s).
  by destruct (over cid s).
Qed.

(** The options change what is handed to the client and nothing else. *)
Lemma sendMessage_any_options chatRequest opts opts' outcome s :
  kind s (req_conversationId chatRequest) = KList →
  fst (sendMessage chatRequest opts' outcome s) =
    fst (sendMessage chatRequest opts outcome s) ∧
  this (snd (sendMessage chatRequest opts' outcome s)) =
    this (snd (sendMessage chatRequest opts outcome s)) ∧
  arrays (snd (sendMessage chatRequest opts' outcome s)) =
    arrays (snd (sendMessage chatRequest opts outcome s)).
Proof.
  intros Hkind. rewrite !(sendMessage_list _ _ _ _ Hkind).
  destruct (verdict _ outcome) as [e|[detail reply]]; [done|].
  set (cid := req_conversationId chatRequest) in *. simpl.
  set (s2 := called chatRequest opts s).
  assert (kind s2 cid = KList) as Hkind2 by by (unfold s2; rewrite called_kind).
  change (called chatRequest opts' s)
    with {| this := this s2; arrays := arrays s2;
            sent := sent (called chatRequest opts' s) |}.
  rewrite (push_history_frame _ _ s2 _ Hkind2); simpl.
  set (s3 := snd (push_history cid (outgoing chatRequest) s2)).
  assert (kind s3 cid = KList) as Hkind3
    by by (unfold s3; rewrite push_history_kind).
  by rewrite (push_history_frame _ _ s3 _ Hkind3).
Qed.

(** C10: a [sendMessage] that returns stores, for the outgoing message,
    the request's text as content, the request's name, and the request's
    role or ["user"], with no other key: nothing when the stored array is
    already longer than [_maxMessages - 1], that entry alone when it has
    exactly that length, that entry and the reply's otherwise.  Whatever
    options the call is given instead, for the same outcome of the client
    it returns the same result and ends with the same instance and the
    same arrays. *)
Theorem C10_stored_outgoing_has_no_option_key chatRequest opts outcome s res s' :
  wf s →
  sendMessage chatRequest opts outcome s = (Returned res, s') →
  stored s' (req_conversationId chatRequest) =
    stored s (req_conversationId chatRequest) ++
      (if Z.of_nat (length (stored s (req_conversationId chatRequest)))
            >? _maxMessages (this s) - 1
       then []
       else if Z.of_nat (length (stored s (req_conversationId chatRequest)))
                 =? _maxMessages (this s) - 1
       then [{| content := req_text chatRequest;
                name := Some (req_name chatRequest);
                role := default user (req_role chatRequest);
                others := ∅ |}]
       else [{| content := req_text chatRequest;
                name := Some (req_name chatRequest);
                role := default user (req_role chatRequest);
                others := ∅ |};
             {| content := res_content res; role := res_role res;
                name := None; others := ∅ |}]) ∧
  ∀ opts', ∃ s'',
    sendMessage chatRequest opts' outcome s = (Returned res, s'') ∧
    this s'' = this s' ∧
    arrays s'' = arrays s'.
Proof.
  intros Hwf Hcall. split.
  - pose proof (sendMessage_returned_stored _ _ _ _ _ _ Hwf Hcall) as Hstored.
    simpl in Hstored. rewrite Hstored. unfold over. f_equal.
    destruct (Z.gtb_spec
                (Z.of_nat (length (stored s (req_conversationId chatRequest))))
                (_maxMessages (this s) - 1)) as [Hgt|Hle]; [done|].
    rewrite length_app; simpl.
    destruct (Z.eqb_spec
                (Z.of_nat (length (stored s (req_conversationId chatRequest))))
                (_maxMessages (this s) - 1)) as [Heq|Hne].
    + rewrite (proj2 (Z.gtb_gt _ _)) by lia. done.
    + destruct (Z.gtb_spec
                  (Z.of_nat (length (stored s (req_conversationId chatRequest))
                             + 1))
                  (_maxMessages (this s) - 1)); [lia|done].
  - intros opts'.
    pose proof (sendMessage_returned_kind _ _ _ _ _ _ Hcall) as Hkind.
    destruct (sendMessage_any_options chatRequest opts opts' outcome s Hkind)
      as (Hfst & Hthis & Harrays).
    rewrite Hcall in Hfst, Hthis, Harrays. simpl in Hfst, Hthis, Harrays.
    exists (snd (sendMessage chatRequest opts' outcome s)).
    split; [|done].
    by rewrite <- Hfst, <- surjective_pairing.
Qed.

(** C10 at a call with a [content] option, [maxMessages = 3] and one
    stored message. *)
Lemma C10_witness :
  let t := assigned (key_and_max "k" 3) in
  let s := restored t "c1" [said assistant None "a0"] in
  let opts : ChatCompletionOpts := {["content" := PString "override"]} in
  let call := sendMessage (ask "c1" "q1") (Some opts) (answer "a1") s in
  stored (snd call) "c1" =
    [said assistant None "a0"; said user (Some "u") "q1";
     said assistant None "a1"] ∧
  ∀ opts', ∃ s'',
    sendMessage (ask "c1" "q1") opts' (answer "a1") s =
      (Returned (answered "a1"), s'') ∧
    this s'' = this (snd call) ∧
    arrays s'' = arrays (snd call).
Proof.
  intros t s opts call.
  apply (C10_stored_outgoing_has_no_option_key (ask "c1" "q1") (Some opts)
           (answer "a1") s (answered "a1") (snd call)).
  - apply (bool_decide_unpack (wf s)). by vm_compute.
  - by vm_compute.
Defined.

(** ** Further properties of [getMessageHistory] and [setMessageHistory] *)

Lemma js_slice_nil {A} (start : Z) : js_slice start (@nil A) = [].
Proof. unfold js_slice. apply drop_nil. Qed.

Lemma window_nil maxMessages : window maxMessages [] = [].
Proof. unfold window. destruct (_ >? _); [apply js_slice_nil|done]. Qed.

(** The window is the stored sequence without some of its first
    elements. *)
Lemma window_drop maxMessages items :
  2 ≤ maxMessages →
  window maxMessages items =
    drop (length items - Z.to_nat (maxMessages - 1)) items.
Proof.
  intros Hmax.
  destruct (decide (Z.of_nat (length items) ≤ maxMessages - 1)) as [Hle|Hgt].
  - rewrite window_fits by done.
    replace (length items - Z.to_nat (maxMessages - 1))%nat with 0%nat by lia.
    done.
  - apply window_most_recent; lia.
Qed.

Lemma window_nonpositive maxMessages items :
  maxMessages ≤ 0 →
  window maxMessages items = drop (Z.to_nat (1 - maxMessages)) items.
Proof.
  intros Hmax. unfold window.
  destruct (Z.gtb_spec (Z.of_nat (length items)) (maxMessages - 1)); [|lia].
  unfold js_slice.
  assert ((- (maxMessages - 1) <? 0) = false) as -> by (apply Z.ltb_ge; lia).
  destruct (decide (1 - maxMessages ≤ Z.of_nat (length items))) as [Hle|Hgt].
  - f_equal. lia.
  - rewrite !drop_ge; [done|lia|lia].
Qed.

Lemma kind_nothing s cid :
  property (_messagesCache (this s)) cid = Returned None → kind s cid = KList.
Proof. intros Hnone. unfold kind. by rewrite Hnone. Qed.

Lemma getMessageHistory_cache_self cid s :
  kind s cid = KList →
  _messagesCache (this (snd (getMessageHistory cid s))) !! cid =
    Some (VArray (cached_loc cid s)).
Proof.
  intros Hkind. rewrite (getMessageHistory_list _ _ Hkind).
  destruct (over cid s); simpl; apply lookup_insert_eq.
Qed.

Lemma getMessageHistory_cache_other cid cid' s :
  kind s cid = KList →
  cid' ≠ cid →
  _messagesCache (this (snd (getMessageHistory cid s))) !! cid' =
    _messagesCache (this s) !! cid'.
Proof.
  intros Hkind Hne. rewrite (getMessageHistory_list _ _ Hkind).
  destruct (over cid s); simpl; by rewrite lookup_insert_ne.
Qed.

Lemma cached_loc_Some cid s l :
  _messagesCache (this s) !! cid = Some (VArray l) → cached_loc cid s = l.
Proof. intros Hl. unfold cached_loc. by rewrite Hl. Qed.

(** X1: a conversation id for which the cache reads [undefined] (it has no
    entry and inherits no property of that name) reads as the empty
    sequence, whatever [_maxMessages] is; the call gives it an entry with
    a new empty array and leaves every other entry and every array as it
    was. *)
Theorem X1_unseen_conversation_reads_empty cid s :
  property (_messagesCache (this s)) cid = Returned None →
  fst (historyOf cid s) = Returned [] ∧
  (∃ l, _messagesCache (this (snd (getMessageHistory cid s))) !! cid =
          Some (VArray l) ∧
        arrays s !! l = None ∧
        arrays (snd (getMessageHistory cid s)) !! l = Some []) ∧
  (∀ cid', cid' ≠ cid →
     _messagesCache (this (snd (getMessageHistory cid s))) !! cid' =
       _messagesCache (this s) !! cid') ∧
  (∀ l items, arrays s !! l = Some items →
     arrays (snd (getMessageHistory cid s)) !! l = Some items).
Proof.
  intros Hread.
  pose proof (kind_nothing _ _ Hread) as Hkind.
  pose proof (property_nothing _ _ Hread) as Hnone.
  assert (stored s cid = []) as Hstored by (unfold stored; by rewrite Hnone).
  split; [by rewrite historyOf_window, Hstored, window_nil|].
  split; [|split].
  - exists (cached_loc cid s).
    split; [by apply getMessageHistory_cache_self|].
    assert (cached_loc cid s = fresh (dom (arrays s))) as Hloc
      by (unfold cached_loc; by rewrite Hnone).
    split; [rewrite Hloc; apply fresh_loc_unused|].
    assert (arrays (ensure_entry cid s) !! cached_loc cid s = Some []) as He.
    { unfold ensure_entry; simpl. rewrite Hnone. apply lookup_insert_eq. }
    rewrite (getMessageHistory_list _ _ Hkind). destruct (over cid s); [|done].
    unfold with_copy; simpl. rewrite lookup_insert_ne; [done|].
    intros Heq. rewrite <- Heq, copy_loc_unused in He. done.
  - intros cid' Hne. by apply getMessageHistory_cache_other.
  - intros l items Hl. rewrite (getMessageHistory_list _ _ Hkind).
    destruct (over cid s); simpl.
    + by apply with_copy_arrays.
    + by apply ensure_entry_arrays.
Qed.

(** X1 at a new store. *)
Lemma X1_witness :
  let s := fresh_store (assigned (key_and_max "k" 0)) in
  fst (historyOf "c1" s) = Returned [].
Proof.
  intros s. apply (X1_unseen_conversation_reads_empty "c1" s). reflexivity.
Defined.

Lemma setMessageHistory_stored cid l s :
  stored (snd (setMessageHistory cid l s)) cid = contents s l.
Proof. unfold stored; simpl. by rewrite lookup_insert_eq. Qed.

(** An assignment to an id other than ["__proto__"] changes no other
    read. *)
Lemma property_insert_ne cache cid v cid' :
  cid ≠ "__proto__" → cid' ≠ cid →
  property (<[cid := v]> cache) cid' = property cache cid'.
Proof.
  intros Hproto Hne. unfold property, prototype_of.
  by rewrite lookup_insert_ne, (lookup_insert_ne _ cid "__proto__").
Qed.

(** X2: for an id other than ["__proto__"], [setMessageHistory] replaces
    what is stored for the conversation by the elements of the given
    array, of any length, and touches neither the arrays nor what the
    other ids read; the trimming applies when the history is read. *)
Theorem X2_setMessageHistory_replaces cid l s :
  cid ≠ "__proto__" →
  stored (snd (setMessageHistory cid l s)) cid = contents s l ∧
  arrays (snd (setMessageHistory cid l s)) = arrays s ∧
  (∀ cid', cid' ≠ cid →
     property (_messagesCache (this (snd (setMessageHistory cid l s)))) cid' =
       property (_messagesCache (this s)) cid' ∧
     stored (snd (setMessageHistory cid l s)) cid' = stored s cid') ∧
  fst (historyOf cid (snd (setMessageHistory cid l s))) =
    Returned (window (_maxMessages (this s)) (contents s l)).
Proof.
  intros Hproto.
  pose proof (setMessageHistory_stored cid l s) as Hs.
  split; [done|]. split; [done|]. split.
  - intros cid' Hne. split.
    + simpl. by apply property_insert_ne.
    + unfold stored; simpl. by rewrite lookup_insert_ne.
  - rewrite historyOf_window, Hs; [done|].
    apply (kind_own_array _ _ l). simpl. apply lookup_insert_eq.
Qed.

(** X2 at a saved history of two messages and [maxMessages = 2]. *)
Lemma X2_witness :
  let s := snd (new_array [said user (Some "u") "q0"; said assistant None "a0"]
                  (fresh_store (assigned (key_and_max "k" 2)))) in
  stored (snd (setMessageHistory "c1" 1%positive s)) "c1" =
    [said user (Some "u") "q0"; said assistant None "a0"] ∧
  fst (historyOf "c1" (snd (setMessageHistory "c1" 1%positive s))) =
    Returned [said assistant None "a0"].
Proof.
  intros s.
  destruct (X2_setMessageHistory_replaces "c1" 1%positive s)
    as (Hstored & _ & _ & Hhistory); [done|].
  split; [exact Hstored|exact Hhistory].
Defined.

(** X3: after [setMessageHistory] with an array of at most
    [maxMessages - 1] elements, [getMessageHistory] returns that very
    array, not a copy, and allocates nothing. *)
Theorem X3_set_then_get_returns_the_array cid l s :
  Z.of_nat (length (contents s l)) ≤ _maxMessages (this s) - 1 →
  fst (getMessageHistory cid (snd (setMessageHistory cid l s))) =
    Returned (VArray l) ∧
  arrays (snd (getMessageHistory cid (snd (setMessageHistory cid l s)))) =
    arrays s ∧
  fst (historyOf cid (snd (setMessageHistory cid l s))) =
    Returned (contents s l).
Proof.
  intros Hfit. set (s1 := snd (setMessageHistory cid l s)).
  assert (_messagesCache (this s1) !! cid = Some (VArray l)) as Hc
    by apply lookup_insert_eq.
  pose proof (kind_own_array _ _ _ Hc) as Hkind.
  assert (stored s1 cid = contents s l) as Hs
    by apply setMessageHistory_stored.
  assert (over cid s1 = false) as Hover by (apply over_false; by rewrite Hs).
  rewrite (getMessageHistory_list _ _ Hkind), Hover; simpl. repeat split.
  - do 2 f_equal. by apply cached_loc_Some.
  - by rewrite lookup_insert_eq.
  - rewrite historyOf_window, Hs by done. f_equal. by apply window_fits.
Qed.

(** X3 at a saved history of two messages and the default [maxMessages]. *)
Lemma X3_witness :
  let s := snd (new_array [said user (Some "u") "q0"; said assistant None "a0"]
                  (fresh_store (assigned (only_key (Some "k"))))) in
  fst (getMessageHistory "c1" (snd (setMessageHistory "c1" 1%positive s))) =
    Returned (VArray 1%positive) ∧
  arrays (snd (getMessageHistory "c1"
                 (snd (setMessageHistory "c1" 1%positive s)))) = arrays s ∧
  fst (historyOf "c1" (snd (setMessageHistory "c1" 1%positive s))) =
    Returned [said user (Some "u") "q0"; said assistant None "a0"].
Proof.
  intros s. apply (X3_set_then_get_returns_the_array "c1" 1%positive s).
  vm_compute. discriminate.
Defined.

(** X4: with [maxMessages] at least 2, for an id that reads an array or
    nothing, [getMessageHistory] returns the stored sequence without its
    oldest elements, so that at most [maxMessages - 1] are left: the last
    [maxMessages - 1] when more are stored, and all of them otherwise. *)
Theorem X4_window_keeps_the_most_recent cid s :
  kind s cid = KList →
  2 ≤ _maxMessages (this s) →
  ∃ history,
    fst (historyOf cid s) = Returned history ∧
    history =
      drop (length (stored s cid) - Z.to_nat (_maxMessages (this s) - 1))
        (stored s cid) ∧
    length history =
      Nat.min (length (stored s cid)) (Z.to_nat (_maxMessages (this s) - 1)).
Proof.
  intros Hkind Hmax. eexists. split; [by apply historyOf_window|].
  rewrite window_drop by done. split; [done|].
  rewrite length_drop. lia.
Qed.

(** X4 at [maxMessages = 2] and three stored messages. *)
Lemma X4_witness :
  let s := restored (assigned (key_and_max "k" 2)) "c1"
             [said user (Some "u") "q0"; said assistant None "a0";
              said user (Some "u") "q1"] in
  ∃ history,
    fst (historyOf "c1" s) = Returned history ∧
    history = drop (length (stored s "c1") - Z.to_nat (2 - 1)) (stored s "c1") ∧
    length history = Nat.min (length (stored s "c1")) (Z.to_nat (2 - 1)).
Proof.
  intros s. apply (X4_window_keeps_the_most_recent "c1" s).
  - by vm_compute.
  - vm_compute. discriminate.
Defined.

(** X5: with [maxMessages] zero or negative, for an id that reads an array
    or nothing, [getMessageHistory] bounds nothing: it returns the stored
    sequence without its first [1 - maxMessages] elements, however many
    are left. *)
Theorem X5_nonpositive_maxMessages_drops_a_prefix cid s :
  kind s cid = KList →
  _maxMessages (this s) ≤ 0 →
  fst (historyOf cid s) =
    Returned (drop (Z.to_nat (1 - _maxMessages (this s))) (stored s cid)).
Proof.
  intros Hkind Hmax. rewrite historyOf_window by done. f_equal.
  by apply window_nonpositive.
Qed.

(** X5 at [maxMessages = 0]: all but the oldest message. *)
Lemma X5_witness :
  let s := restored (assigned (key_and_max "k" 0)) "c1"
             [said user (Some "u") "q0"; said assistant None "a0";
              said user (Some "u") "q1"] in
  fst (historyOf "c1" s) =
    Returned [said assistant None "a0"; said user (Some "u") "q1"].
Proof.
  intros s. apply (X5_nonpositive_maxMessages_drops_a_prefix "c1" s).
  - by vm_compute.
  - vm_compute. discriminate.
Defined.

(** X6: reading a history changes no history.  [getMessageHistory] leaves
    the stored sequence of every conversation and the elements of every
    existing array as they were (what it trims, it trims in a copy), so a
    second read returns the same elements. *)
Theorem X6_reading_changes_no_history cid s :
  wf s →
  (∀ cid', stored (snd (getMessageHistory cid s)) cid' = stored s cid') ∧
  (∀ l items, arrays s !! l = Some items →
     arrays (snd (getMessageHistory cid s)) !! l = Some items) ∧
  (∀ cid', fst (historyOf cid' (snd (getMessageHistory cid s))) =
           fst (historyOf cid' s)).
Proof.
  intros Hwf.
  destruct (getMessageHistory_preserved cid s Hwf) as [Hpreserved _].
  split; [apply Hpreserved|]. split; [apply Hpreserved|].
  intros cid'. by apply historyOf_preserved.
Qed.

(** X6 at [maxMessages = 2] and three stored messages. *)
Lemma X6_witness :
  let s := restored (assigned (key_and_max "k" 2)) "c1"
             [said user (Some "u") "q0"; said assistant None "a0";
              said user (Some "u") "q1"] in
  (∀ cid', stored (snd (getMessageHistory "c1" s)) cid' = stored s cid') ∧
  (∀ l items, arrays s !! l = Some items →
     arrays (snd (getMessageHistory "c1" s)) !! l = Some items) ∧
  (∀ cid', fst (historyOf cid' (snd (getMessageHistory "c1" s))) =
           fst (historyOf cid' s)).
Proof.
  intros s. apply (X6_reading_changes_no_history "c1" s).
  apply (bool_decide_unpack (wf s)). by vm_compute.
Defined.

(** X7: when [getMessageHistory] returns an array, it is the stored one
    while the stored sequence has at most [maxMessages - 1] elements, and
    a detached copy otherwise: a [push] onto it is added to the stored
    sequence in the first case and is seen by no conversation in the
    second. *)
Theorem X7_returned_array_is_live_or_detached cid m s l s1 :
  wf s →
  getMessageHistory cid s = (Returned (VArray l), s1) →
  (over cid s = false →
     _messagesCache (this s1) !! cid = Some (VArray l) ∧
     stored (snd (array_push l m s1)) cid = stored s cid ++ [m]) ∧
  (over cid s = true →
     arrays s !! l = None ∧
     ∀ cid', _messagesCache (this s1) !! cid' ≠ Some (VArray l) ∧
             stored (snd (array_push l m s1)) cid' = stored s cid').
Proof.
  intros Hwf Hget.
  pose proof (getMessageHistory_returns_array _ _ _ _ Hget) as Hkind.
  pose proof (push_history_lands cid m s Hkind) as Hlands.
  pose proof (λ cid', push_history_lost cid m s cid' Hkind Hwf) as Hlost.
  rewrite (push_history_list _ _ _ Hkind) in Hlands, Hlost.
  rewrite (getMessageHistory_list _ _ Hkind) in Hget.
  destruct (over cid s); injection Hget as <- <-; split; try done.
  - intros _. split.
    + destruct (arrays s !! copy_loc cid s) as [items|] eqn:Hl; [|done].
      apply (ensure_entry_arrays cid) in Hl. by rewrite copy_loc_unused in Hl.
    + intros cid'. split; [by apply copy_loc_not_cached|by apply Hlost].
  - intros _. split; [apply ensure_entry_cached|by apply Hlands].
Qed.

(** X7 at a stored sequence longer than [maxMessages - 1]. *)
Lemma X7_witness :
  let s := restored (assigned (key_and_max "k" 2)) "c1"
             [said user (Some "u") "q0"; said assistant None "a0"] in
  let m := said user (Some "u") "q1" in
  let got := getMessageHistory "c1" s in
  (over "c1" s = false →
     _messagesCache (this (snd got)) !! "c1" = Some (VArray 2%positive) ∧
     stored (snd (array_push 2%positive m (snd got))) "c1" =
       stored s "c1" ++ [m]) ∧
  (over "c1" s = true →
     arrays s !! 2%positive = None ∧
     ∀ cid', _messagesCache (this (snd got)) !! cid' ≠
               Some (VArray 2%positive) ∧
             stored (snd (array_push 2%positive m (snd got))) cid' =
               stored s cid').
Proof.
  intros s m got.
  apply (X7_returned_array_is_live_or_detached "c1" m s 2%positive (snd got)).
  - apply (bool_decide_unpack (wf s)). by vm_compute.
  - by vm_compute.
Defined.

(** ** Further properties of [sendMessage] *)

Lemma push_history_cache_self cid m s :
  kind s cid = KList →
  _messagesCache (this (snd (push_history cid m s))) !! cid =
    Some (VArray (cached_loc cid s)).
Proof.
  intros Hkind. rewrite (push_history_list _ _ _ Hkind).
  destruct (over cid s); simpl; apply lookup_insert_eq.
Qed.

Lemma push_history_cache_other cid m s cid' :
  kind s cid = KList →
  cid' ≠ cid →
  _messagesCache (this (snd (push_history cid m s))) !! cid' =
    _messagesCache (this s) !! cid'.
Proof.
  intros Hkind Hne. rewrite (push_history_list _ _ _ Hkind).
  destruct (over cid s); simpl; by rewrite lookup_insert_ne.
Qed.

Lemma called_cache_self chatRequest opts s :
  kind s (req_conversationId chatRequest) = KList →
  _messagesCache (this (called chatRequest opts s))
    !! req_conversationId chatRequest =
    Some (VArray (cached_loc (req_conversationId chatRequest) s)).
Proof. apply getMessageHistory_cache_self. Qed.

Lemma called_cache_other chatRequest opts s cid' :
  kind s (req_conversationId chatRequest) = KList →
  cid' ≠ req_conversationId chatRequest →
  _messagesCache (this (called chatRequest opts s)) !! cid' =
    _messagesCache (this s) !! cid'.
Proof. apply getMessageHistory_cache_other. Qed.

Lemma sendMessage_cache_self chatRequest opts outcome s :
  kind s (req_conversationId chatRequest) = KList →
  _messagesCache (this (snd (sendMessage chatRequest opts outcome s)))
    !! req_conversationId chatRequest =
    Some (VArray (cached_loc (req_conversationId chatRequest) s)).
Proof.
  intros Hkind. rewrite (sendMessage_list _ _ _ _ Hkind).
  pose proof (called_cache_self chatRequest opts s Hkind) as Hc.
  pose proof (called_kind chatRequest opts s
                (req_conversationId chatRequest) Hkind) as Hkind2.
  rewrite Hkind in Hkind2.
  destruct (verdict _ outcome) as [e|[detail reply]]; [done|].
  simpl.
  rewrite push_history_cache_self by by rewrite push_history_kind.
  do 2 f_equal. apply cached_loc_Some.
  rewrite push_history_cache_self by done.
  do 2 f_equal. by apply cached_loc_Some.
Qed.

Lemma sendMessage_cache_other chatRequest opts outcome s cid' :
  kind s (req_conversationId chatRequest) = KList →
  cid' ≠ req_conversationId chatRequest →
  _messagesCache (this (snd (sendMessage chatRequest opts outcome s))) !! cid' =
    _messagesCache (this s) !! cid'.
Proof.
  intros Hkind Hne. rewrite (sendMessage_list _ _ _ _ Hkind).
  pose proof (called_cache_other chatRequest opts s cid' Hkind Hne) as Hc.
  pose proof (called_kind chatRequest opts s
                (req_conversationId chatRequest) Hkind) as Hkind2.
  rewrite Hkind in Hkind2.
  destruct (verdict _ outcome) as [e|[detail reply]]; [done|].
  simpl.
  rewrite push_history_cache_other; [|by rewrite push_history_kind|done].
  by rewrite push_history_cache_other.
Qed.

(** On a conversation for which the cache reads an array or nothing, it
    does so after a call as well, whatever the id. *)
Lemma sendMessage_kind_list chatRequest opts outcome s cid' :
  kind s (req_conversationId chatRequest) = KList →
  kind (snd (sendMessage chatRequest opts outcome s)) cid' = kind s cid'.
Proof.
  intros Hkind. rewrite (sendMessage_list _ _ _ _ Hkind).
  pose proof (called_kind chatRequest opts s) as Hkind2.
  destruct (verdict _ outcome) as [e|[detail reply]]; [by apply Hkind2|].
  simpl. rewrite !push_history_kind; [by apply Hkind2| |].
  - by rewrite Hkind2.
  - rewrite push_history_kind; by rewrite Hkind2.
Qed.

(** What every id reads is of the same kind after a call. *)
Lemma sendMessage_kind chatRequest opts outcome s cid' :
  wf s →
  kind (snd (sendMessage chatRequest opts outcome s)) cid' = kind s cid'.
Proof.
  intros Hwf.
  destruct (decide (kind s (req_conversationId chatRequest) = KList))
    as [Hkind|Hkind]; [by apply sendMessage_kind_list|].
  rewrite (sendMessage_refused _ _ _ _ Hkind). simpl.
  by apply getMessageHistory_preserved.
Qed.

(** A push changes the stored sequence of a conversation only if that
    conversation is cached at the array the push reaches. *)
Lemma push_history_stored_any cid m s cid' :
  kind s cid = KList →
  wf s →
  stored (snd (push_history cid m s)) cid' = stored s cid' ∨
  (over cid s = false ∧
   _messagesCache (this (ensure_entry cid s)) !! cid' =
     Some (VArray (cached_loc cid s)) ∧
   stored s cid' = stored s cid ∧
   stored (snd (push_history cid m s)) cid' = stored s cid' ++ [m]).
Proof.
  intros Hkind Hwf. destruct (over cid s) eqn:Hover.
  - left. by apply push_history_lost.
  - rewrite (push_history_list _ _ _ Hkind), Hover, array_push_stored.
    case_decide as Hc; rewrite ensure_entry_stored; [|by left].
    right. repeat split; [done|].
    rewrite <- (contents_ensure_entry cid s), <- (ensure_entry_stored cid s cid').
    unfold stored. by rewrite Hc.
Qed.

Lemma push_history_length_bound cid m s cid' :
  kind s cid = KList →
  wf s →
  Z.of_nat (length (stored (snd (push_history cid m s)) cid')) ≤
    Z.max (Z.of_nat (length (stored s cid'))) (_maxMessages (this s)).
Proof.
  intros Hkind Hwf.
  destruct (push_history_stored_any cid m s cid' Hkind Hwf)
    as [->|(Hover & _ & Heq & ->)]; [lia|].
  unfold over in Hover. rewrite <- Heq in Hover.
  destruct (Z.gtb_spec (Z.of_nat (length (stored s cid')))
              (_maxMessages (this s) - 1)); [done|].
  rewrite length_app. simpl. lia.
Qed.

Lemma sendMessage_length_bound chatRequest opts outcome s cid' :
  wf s →
  Z.of_nat (length (stored (snd (sendMessage chatRequest opts outcome s)) cid'))
  ≤ Z.max (Z.of_nat (length (stored s cid'))) (_maxMessages (this s)).
Proof.
  intros Hwf.
  destruct (decide (kind s (req_conversationId chatRequest) = KList))
    as [Hkind|Hkind].
  - rewrite (sendMessage_list _ _ _ _ Hkind).
    destruct (called_preserved chatRequest opts s Hwf) as [Hwf2 Hc2 _ Hs2 Hk2].
    pose proof (same_config_maxMessages _ _ Hc2) as Hmax2.
    destruct (verdict _ outcome) as [e|[detail reply]]; [rewrite Hs2; lia|].
    simpl.
    set (cid := req_conversationId chatRequest) in *.
    set (s2 := called chatRequest opts s) in *.
    set (s3 := snd (push_history cid (outgoing chatRequest) s2)).
    assert (kind s2 cid = KList) as Hkind2 by by rewrite Hk2.
    assert (kind s3 cid = KList) as Hkind3
      by by (unfold s3; rewrite push_history_kind).
    pose proof (push_history_length_bound cid (outgoing chatRequest) s2 cid'
                  Hkind2 Hwf2) as Hb3.
    fold s3 in Hb3.
    assert (wf s3) as Hwf3 by by apply push_history_wf.
    pose proof (push_history_length_bound cid (incoming reply) s3 cid'
                  Hkind3 Hwf3) as Hb4.
    assert (_maxMessages (this s3) = _maxMessages (this s2)) as Hmax3
      by by apply same_config_maxMessages, push_history_config.
    rewrite Hs2 in Hb3. lia.
  - rewrite (sendMessage_refused _ _ _ _ Hkind). simpl.
    destruct (getMessageHistory_preserved (req_conversationId chatRequest) s Hwf)
      as [[_ _ _ Hs _] _].
    rewrite Hs. lia.
Qed.

Lemma run_calls_cons call calls s :
  run_calls (call :: calls) s =
    run_calls calls (snd (sendMessage call.1.1 call.1.2 call.2 s)).
Proof. reflexivity. Qed.

Lemma run_calls_wf calls s : wf s → wf (run_calls calls s).
Proof.
  revert s. induction calls as [|call calls IH]; intros s Hwf; [done|].
  rewrite run_calls_cons. by apply IH, sendMessage_wf.
Qed.

Lemma run_calls_config calls s : same_config (this s) (this (run_calls calls s)).
Proof.
  revert s. induction calls as [|call calls IH]; intros s.
  - apply same_config_refl.
  - rewrite run_calls_cons.
    eapply same_config_trans; [apply sendMessage_config|apply IH].
Qed.

(** What [getMessageHistory] hands out depends on the kind of the read,
    the stored elements and the bound. *)
Lemma historyOf_same cid s s' :
  kind s' cid = kind s cid →
  stored s' cid = stored s cid →
  _maxMessages (this s') = _maxMessages (this s) →
  fst (historyOf cid s') = fst (historyOf cid s).
Proof.
  intros Hkind Hstored Hmax. rewrite !historyOf_eq. unfold refused.
  by rewrite Hkind, Hstored, Hmax.
Qed.

(** X8: on a conversation for which the cache reads an array or nothing,
    [sendMessage] returns exactly when the call resolved with a body
    whose first choice has a message and, with [debug] on, the response
    could be logged; what it returns is that message's content and role,
    with the whole body as detail.  Further choices are not looked at. *)
Theorem X8_sendMessage_returns_iff chatRequest opts outcome s res :
  kind s (req_conversationId chatRequest) = KList →
  fst (sendMessage chatRequest opts outcome s) = Returned res ↔
  ∃ completion detail choice rest reply,
    outcome = Resolved completion ∧
    (_debug (this s) = true → stringify_throws completion = None) ∧
    data completion = Some detail ∧
    choices detail = Some (choice :: rest) ∧
    message choice = Some reply ∧
    res = {| res_content := msg_content reply; res_detail := detail;
             res_role := msg_role reply |}.
Proof.
  intros Hkind. rewrite (sendMessage_list _ _ _ _ Hkind).
  destruct outcome as [completion|f]; simpl.
  - destruct (_debug (this s)) eqn:Hdebug;
      [destruct (stringify_throws completion) as [m|] eqn:Hlog|].
    + split; [done|].
      intros (c & d & ch & r & m' & [= <-] & Hl & _).
      specialize (Hl eq_refl). congruence.
    + destruct (data completion) as [detail|] eqn:Hdata;
        [destruct (choices detail) as [[|choice rest]|] eqn:Hchoices;
         [| destruct (message choice) as [reply|] eqn:Hmsg |] |]; simpl.
      * split; [done|]. intros (c & d & ch & r & m & [= <-] & _ & ? & ? & _).
        congruence.
      * split.
        -- intros [= <-]. by exists completion, detail, choice, rest, reply.
        -- intros (c & d & ch & r & m & [= <-] & _ & Hd & Hch & Hm & ->).
           congruence.
      * split; [done|].
        intros (c & d & ch & r & m & [= <-] & _ & Hd & Hch & Hm & _).
        congruence.
      * split; [done|]. intros (c & d & ch & r & m & [= <-] & _ & ? & ? & _).
        congruence.
      * split; [done|]. intros (c & d & ch & r & m & [= <-] & _ & ? & _).
        congruence.
    + destruct (data completion) as [detail|] eqn:Hdata;
        [destruct (choices detail) as [[|choice rest]|] eqn:Hchoices;
         [| destruct (message choice) as [reply|] eqn:Hmsg |] |]; simpl.
      * split; [done|]. intros (c & d & ch & r & m & [= <-] & _ & ? & ? & _).
        congruence.
      * split.
        -- intros [= <-]. by exists completion, detail, choice, rest, reply.
        -- intros (c & d & ch & r & m & [= <-] & _ & Hd & Hch & Hm & ->).
           congruence.
      * split; [done|].
        intros (c & d & ch & r & m & [= <-] & _ & Hd & Hch & Hm & _).
        congruence.
      * split; [done|]. intros (c & d & ch & r & m & [= <-] & _ & ? & ? & _).
        congruence.
      * split; [done|]. intros (c & d & ch & r & m & [= <-] & _ & ? & _).
        congruence.
  - split; [done|]. by intros (c & d & ch & r & m & ? & _).
Qed.

(** X8 at a response that can be logged, with [debug] on. *)
Lemma X8_witness :
  fst (sendMessage (ask "c1" "q1") None (answer "a1")
         (fresh_store (assigned (key_and_debug "k")))) =
    Returned (answered "a1").
Proof.
  apply (X8_sendMessage_returns_iff (ask "c1" "q1") None (answer "a1")
           (fresh_store (assigned (key_and_debug "k"))) (answered "a1"));
    [by vm_compute|].
  eexists _, (body "a1"), _, [], _. repeat split; reflexivity.
Defined.

(** X9: what a returning [sendMessage] adds to the stored sequence of its
    conversation: nothing when the sequence is already longer than
    [maxMessages - 1]; the outgoing message alone when it has exactly
    [maxMessages - 1] elements; the outgoing message and then the reply
    when it is shorter. *)
Theorem X9_stored_growth_of_a_returning_call
    chatRequest opts outcome s res s' :
  wf s →
  sendMessage chatRequest opts outcome s = (Returned res, s') →
  stored s' (req_conversationId chatRequest) =
    stored s (req_conversationId chatRequest) ++
      if Z.of_nat (length (stored s (req_conversationId chatRequest)))
           >? _maxMessages (this s) - 1
      then []
      else if Z.of_nat (length (stored s (req_conversationId chatRequest)))
                =? _maxMessages (this s) - 1
      then [{| content := req_text chatRequest;
               name := Some (req_name chatRequest);
               role := default user (req_role chatRequest);
               others := ∅ |}]
      else [{| content := req_text chatRequest;
               name := Some (req_name chatRequest);
               role := default user (req_role chatRequest);
               others := ∅ |};
            {| content := res_content res; role := res_role res;
               name := None; others := ∅ |}].
Proof.
  intros Hwf Hcall.
  rewrite (sendMessage_returned_stored _ _ _ _ _ _ Hwf Hcall). f_equal.
  unfold over. rewrite length_app. simpl.
  destruct (Z.gtb_spec
              (Z.of_nat (length (stored s (req_conversationId chatRequest))))
              (_maxMessages (this s) - 1)) as [Hgt|Hle]; [done|].
  destruct (Z.eqb_spec
              (Z.of_nat (length (stored s (req_conversationId chatRequest))))
              (_maxMessages (this s) - 1)) as [Heq|Hne];
    match goal with |- context [?a >? ?b] => destruct (Z.gtb_spec a b) end;
    done || lia.
Qed.

(** X9 at a stored sequence of exactly [maxMessages - 1] elements: only
    the outgoing message is added. *)
Lemma X9_witness :
  let s := restored (assigned (key_and_max "k" 3)) "c1"
             [said user (Some "u") "q0"; said assistant None "a0"] in
  stored (snd (sendMessage (ask "c1" "q1") None (answer "a1") s)) "c1" =
    [said user (Some "u") "q0"; said assistant None "a0";
     said user (Some "u") "q1"].
Proof.
  intros s.
  apply (X9_stored_growth_of_a_returning_call (ask "c1" "q1") None
           (answer "a1") s (answered "a1")
           (snd (sendMessage (ask "c1" "q1") None (answer "a1") s))).
  - apply (bool_decide_unpack (wf s)). by vm_compute.
  - by vm_compute.
Defined.

(** X10: however many calls are made, on whatever conversations and with
    whatever outcomes, no conversation's stored sequence grows beyond
    [maxMessages] elements: its length stays at most the larger of its
    length before and [maxMessages]. *)
Theorem X10_stored_length_stays_bounded calls s cid :
  wf s →
  Z.of_nat (length (stored (run_calls calls s) cid)) ≤
    Z.max (Z.of_nat (length (stored s cid))) (_maxMessages (this s)).
Proof.
  revert s. induction calls as [|call calls IH]; intros s Hwf; [simpl; lia|].
  rewrite run_calls_cons.
  pose proof (sendMessage_wf call.1.1 call.1.2 call.2 s Hwf) as Hwf1.
  pose proof (sendMessage_length_bound call.1.1 call.1.2 call.2 s cid Hwf)
    as Hb1.
  pose proof (same_config_maxMessages _ _
                (sendMessage_config call.1.1 call.1.2 call.2 s)) as Hmax1.
  specialize (IH _ Hwf1). lia.
Qed.

(** X10 at three returning calls with [maxMessages = 3]: three messages
    are stored. *)
Lemma X10_witness :
  let s := fresh_store (assigned (key_and_max "k" 3)) in
  let calls : list Call :=
    [(ask "c1" "q1", None, answer "a1"); (ask "c1" "q2", None, answer "a2");
     (ask "c1" "q3", None, answer "a3")] in
  Z.of_nat (length (stored (run_calls calls s) "c1")) ≤
    Z.max (Z.of_nat (length (stored s "c1"))) 3.
Proof.
  intros s calls. apply (X10_stored_length_stays_bounded calls s "c1").
  apply (bool_decide_unpack (wf s)). by vm_compute.
Defined.

Lemma push_history_stored_other cid m s cid' :
  kind s cid = KList →
  wf s →
  cid' ≠ cid →
  _messagesCache (this s) !! cid' ≠ Some (VArray (cached_loc cid s)) →
  stored (snd (push_history cid m s)) cid' = stored s cid'.
Proof.
  intros Hkind Hwf Hne Hother.
  destruct (push_history_stored_any cid m s cid' Hkind Hwf)
    as [->|(_ & Hc & _)]; [done|].
  by rewrite ensure_entry_cache_other in Hc.
Qed.

Lemma sendMessage_stored_other chatRequest opts outcome s cid' :
  wf s →
  cid' ≠ req_conversationId chatRequest →
  (∀ l, _messagesCache (this s) !! cid' = Some (VArray l) →
        _messagesCache (this s) !! req_conversationId chatRequest ≠
          Some (VArray l)) →
  stored (snd (sendMessage chatRequest opts outcome s)) cid' = stored s cid'.
Proof.
  intros Hwf Hne Hapart. set (cid := req_conversationId chatRequest) in *.
  destruct (decide (kind s cid = KList)) as [Hkind|Hkind].
  - assert (_messagesCache (this s) !! cid' ≠ Some (VArray (cached_loc cid s)))
      as Hother.
    { intros Hc. unfold cached_loc in Hc.
      destruct (_messagesCache (this s) !! cid) as [[l|n|]|] eqn:Hl;
        simpl in Hc;
        try (destruct (wf_lookup s cid' _ Hwf Hc) as [items Hitems];
             by rewrite fresh_loc_unused in Hitems).
      by apply (Hapart l). }
    rewrite (sendMessage_list _ _ _ _ Hkind).
    destruct (called_preserved chatRequest opts s Hwf) as [Hwf2 _ _ Hs2 Hk2].
    destruct (verdict _ outcome) as [e|[detail reply]]; [apply Hs2|].
    simpl. fold cid.
    set (s2 := called chatRequest opts s) in *.
    set (s3 := snd (push_history cid (outgoing chatRequest) s2)).
    assert (kind s2 cid = KList) as Hkind2 by by rewrite Hk2.
    assert (kind s3 cid = KList) as Hkind3
      by by (unfold s3; rewrite push_history_kind).
    assert (cached_loc cid s2 = cached_loc cid s) as Hloc2
      by by apply cached_loc_Some, called_cache_self.
    assert (_messagesCache (this s2) !! cid' = _messagesCache (this s) !! cid')
      as Hc2 by by apply called_cache_other.
    assert (stored s3 cid' = stored s cid') as Hs3.
    { unfold s3. rewrite push_history_stored_other; [apply Hs2|done..|].
      by rewrite Hloc2, Hc2. }
    assert (cached_loc cid s3 = cached_loc cid s) as Hloc3.
    { rewrite <- Hloc2. by apply cached_loc_Some, push_history_cache_self. }
    assert (_messagesCache (this s3) !! cid' = _messagesCache (this s) !! cid')
      as Hc3.
    { unfold s3. by rewrite push_history_cache_other. }
    rewrite push_history_stored_other;
      [done|done|by apply push_history_wf|done|].
    by rewrite Hloc3, Hc3.
  - rewrite (sendMessage_refused _ _ _ _ Hkind). simpl.
    by apply getMessageHistory_preserved.
Qed.

(** X11: while the prototype of the cache is [Object.prototype], a call
    on one conversation leaves every other id as it was, unless the two
    are cached at the same array: the stored sequence is the same, and
    [getMessageHistory] ends as it did before. *)
Theorem X11_other_conversations_are_untouched
    chatRequest opts outcome s cid' :
  wf s →
  prototype_of (_messagesCache (this s)) = VObjectPrototype →
  cid' ≠ req_conversationId chatRequest →
  (∀ l, _messagesCache (this s) !! cid' = Some (VArray l) →
        _messagesCache (this s) !! req_conversationId chatRequest ≠
          Some (VArray l)) →
  stored (snd (sendMessage chatRequest opts outcome s)) cid' = stored s cid' ∧
  fst (historyOf cid' (snd (sendMessage chatRequest opts outcome s))) =
    fst (historyOf cid' s).
Proof.
  intros Hwf _ Hne Hapart.
  pose proof (sendMessage_stored_other chatRequest opts outcome s cid'
                Hwf Hne Hapart) as Hstored.
  split; [done|]. apply historyOf_same; [|done|].
  - by apply sendMessage_kind.
  - apply same_config_maxMessages, sendMessage_config.
Qed.

(** X11 at two conversations restored one after the other. *)
Lemma X11_witness :
  let s0 := restored (assigned (only_key (Some "k"))) "c2"
              [said user (Some "v") "hello"] in
  let s := snd ((l ← new_array [said user (Some "u") "q0"];
                 setMessageHistory "c1" l) s0) in
  stored (snd (sendMessage (ask "c1" "q1") None (answer "a1") s)) "c2" =
    stored s "c2" ∧
  fst (historyOf "c2" (snd (sendMessage (ask "c1" "q1") None (answer "a1") s)))
    = fst (historyOf "c2" s).
Proof.
  intros s0 s.
  apply (X11_other_conversations_are_untouched (ask "c1" "q1") None
           (answer "a1") s "c2").
  - apply (bool_decide_unpack (wf s)). by vm_compute.
  - by vm_compute.
  - discriminate.
  - intros l. vm_compute. intros [= <-]. discriminate.
Defined.

(** X12: two conversation ids cached at the same array (the same array was
    given to [setMessageHistory] for both) keep the same stored sequence:
    after a call on one of them, the other reads what the first reads. *)
Theorem X12_shared_array_shared_history chatRequest opts outcome s cid' l :
  _messagesCache (this s) !! req_conversationId chatRequest =
    Some (VArray l) →
  _messagesCache (this s) !! cid' = Some (VArray l) →
  stored (snd (sendMessage chatRequest opts outcome s)) cid' =
    stored (snd (sendMessage chatRequest opts outcome s))
      (req_conversationId chatRequest) ∧
  fst (historyOf cid' (snd (sendMessage chatRequest opts outcome s))) =
    fst (historyOf (req_conversationId chatRequest)
           (snd (sendMessage chatRequest opts outcome s))).
Proof.
  intros Hl Hl'.
  pose proof (kind_own_array _ _ _ Hl) as Hkind.
  destruct (decide (cid' = req_conversationId chatRequest)) as [->|Hne];
    [done|].
  assert (_messagesCache (this (snd (sendMessage chatRequest opts outcome s)))
            !! cid' = Some (VArray l)) as Hafter'
    by by rewrite sendMessage_cache_other.
  assert (_messagesCache (this (snd (sendMessage chatRequest opts outcome s)))
            !! req_conversationId chatRequest = Some (VArray l)) as Hafter
    by by rewrite sendMessage_cache_self, (cached_loc_Some _ _ _ Hl).
  assert (stored (snd (sendMessage chatRequest opts outcome s)) cid' =
          stored (snd (sendMessage chatRequest opts outcome s))
            (req_conversationId chatRequest)) as Heq.
  { unfold stored. by rewrite Hafter, Hafter'. }
  split; [done|].
  rewrite !historyOf_window, Heq; [done|by eapply kind_own_array..].
Qed.

(** X12 at one array given to two conversations: the call on ["c1"] shows
    in ["c2"]. *)
Lemma X12_witness :
  let s1 := restored (assigned (only_key (Some "k"))) "c1"
              [said user (Some "u") "q0"] in
  let s := snd (setMessageHistory "c2" 1%positive s1) in
  let s' := snd (sendMessage (ask "c1" "q1") None (answer "a1") s) in
  stored s' "c2" = stored s' "c1" ∧
  fst (historyOf "c2" s') = fst (historyOf "c1" s').
Proof.
  intros s1 s s'.
  apply (X12_shared_array_shared_history (ask "c1" "q1") None (answer "a1") s
           "c2" 1%positive); reflexivity.
Defined.

(** X13: with [maxMessages] at least 2, on a conversation for which the
    cache reads an array or nothing, the list sent holds the system
    message, the new message and at most [maxMessages - 1] stored ones: at
    most [maxMessages + 1] messages in all. *)
Theorem X13_submitted_count_is_bounded chatRequest opts outcome s :
  kind s (req_conversationId chatRequest) = KList →
  2 ≤ _maxMessages (this s) →
  ∃ request,
    sent (snd (sendMessage chatRequest opts outcome s)) = sent s ++ [request] ∧
    length (messages request) =
      (2 + Nat.min (length (stored s (req_conversationId chatRequest)))
             (Z.to_nat (_maxMessages (this s) - 1)))%nat ∧
    Z.of_nat (length (messages request)) ≤ _maxMessages (this s) + 1.
Proof.
  intros Hkind Hmax. exists (submitted chatRequest opts s).
  split; [by apply sendMessage_sent_list|].
  assert (length (messages (submitted chatRequest opts s)) =
          (2 + Nat.min (length (stored s (req_conversationId chatRequest)))
                 (Z.to_nat (_maxMessages (this s) - 1)))%nat) as Hlen.
  { simpl. rewrite length_app, length_map, window_drop, length_drop by done.
    simpl. lia. }
  split; [done|]. rewrite Hlen. lia.
Qed.

(** X13 at [maxMessages = 2] and three stored messages: three messages
    are sent. *)
Lemma X13_witness :
  let s := restored (assigned (key_and_max "k" 2)) "c1"
             [said user (Some "u") "q0"; said assistant None "a0";
              said user (Some "u") "q1"] in
  ∃ request,
    sent (snd (sendMessage (ask "c1" "q2") None (answer "a2") s)) =
      sent s ++ [request] ∧
    length (messages request) =
      (2 + Nat.min (length (stored s "c1")) (Z.to_nat (2 - 1)))%nat ∧
    Z.of_nat (length (messages request)) ≤ 2 + 1.
Proof.
  intros s.
  apply (X13_submitted_count_is_bounded (ask "c1" "q2") None (answer "a2") s).
  - by vm_compute.
  - vm_compute. discriminate.
Defined.

Lemma constructor_inr opts t : constructor opts = inr t → t = assigned opts.
Proof. unfold constructor. destruct (js_not _); congruence. Qed.

(** X14: of the completion parameters kept by the instance, only [model]
    is ever sent: on a conversation for which the cache reads an array or
    nothing, the request of an instance built from [opts] holds the model
    given in [opts.completionParams], or ["gpt-3.5-turbo"] when none was
    given, and no other parameter, whatever the per-call options. *)
Theorem X14_only_the_constructed_model_is_sent
    opts t chatRequest callOpts outcome s :
  constructor opts = inr t →
  same_config t (this s) →
  kind s (req_conversationId chatRequest) = KList →
  ∃ request,
    sent (snd (sendMessage chatRequest callOpts outcome s)) =
      sent s ++ [request] ∧
    params request =
      {["model" := default (PString DEFAULT_MODEL)
                     (completionParams opts ≫= λ given, given !! "model")]}.
Proof.
  intros Hctor Hconfig Hkind. apply constructor_inr in Hctor. subst t.
  exists (submitted chatRequest callOpts s).
  split; [by apply sendMessage_sent_list|].
  unfold submitted, composed; simpl. rewrite Hconfig; simpl.
  unfold spread. rewrite lookup_union, lookup_insert_eq.
  destruct (completionParams opts) as [given|]; simpl.
  - by destruct (given !! "model").
  - by rewrite lookup_empty.
Qed.

(** X14 at an instance built with a model and a temperature. *)
Lemma X14_witness :
  let given : ChatCompletionOpts :=
    <["model" := PString "gpt-4"]> {["temperature" := PNumber (Qmake 2 10)]} in
  let opts :=
    {| apiKey := Some "k"; debug := None; completionParams := Some given;
       systemMessage := None; maxMessages := None |} in
  ∃ request,
    sent (snd (sendMessage (ask "c1" "q1")
                 (Some {["top_p" := PNumber (Qmake 1 2)]}) (answer "a1")
                 (fresh_store (assigned opts)))) = [] ++ [request] ∧
    params request = {["model" := PString "gpt-4"]}.
Proof.
  intros given opts.
  apply (X14_only_the_constructed_model_is_sent opts (assigned opts)
           (ask "c1" "q1") (Some {["top_p" := PNumber (Qmake 1 2)]})
           (answer "a1") (fresh_store (assigned opts))); reflexivity.
Defined.

(** A call on a conversation with room for two more messages stores what
    it exchanged: two messages when it returns, none when it throws. *)
Lemma sendMessage_stored_within chatRequest opts outcome s :
  kind s (req_conversationId chatRequest) = KList →
  Z.of_nat (length (stored s (req_conversationId chatRequest))) + 2
    ≤ _maxMessages (this s) - 1 →
  stored (snd (sendMessage chatRequest opts outcome s))
    (req_conversationId chatRequest) =
    stored s (req_conversationId chatRequest)
      ++ exchanged (_debug (this s)) (chatRequest, opts, outcome).
Proof.
  set (cid := req_conversationId chatRequest). intros Hkind Hfit.
  assert (over cid s = false) as Hover by (apply over_false; lia).
  pose proof (called_stored_within chatRequest opts s cid Hkind Hover) as Hs2.
  rewrite (sendMessage_list _ _ _ _ Hkind). unfold exchanged; simpl.
  destruct (verdict _ outcome) as [e|[detail reply]];
    [by rewrite app_nil_r|].
  simpl. fold cid.
  set (s2 := called chatRequest opts s) in *.
  set (s3 := snd (push_history cid (outgoing chatRequest) s2)).
  assert (kind s2 cid = KList) as Hkind2 by by (unfold s2; rewrite called_kind).
  assert (kind s3 cid = KList) as Hkind3
    by by (unfold s3; rewrite push_history_kind).
  assert (_maxMessages (this s3) = _maxMessages (this s)) as Hmax3.
  { unfold s3.
    rewrite (same_config_maxMessages _ _
               (push_history_config _ _ _ Hkind2)).
    apply same_config_maxMessages, called_config. }
  assert (stored s3 cid = stored s cid ++ [outgoing chatRequest]) as Hs3.
  { unfold s3. rewrite push_history_lands;
      [by rewrite Hs2|done|by apply called_over_within]. }
  rewrite push_history_lands; [|done|].
  - by rewrite Hs3, <- app_assoc.
  - apply over_false. rewrite Hs3, Hmax3, length_app. simpl. lia.
Qed.

Lemma exchanged_length debug call : (length (exchanged debug call) ≤ 2)%nat.
Proof.
  unfold exchanged.
  destruct (verdict debug call.2) as [e|[detail reply]]; simpl; lia.
Qed.

Lemma flat_map_exchanged_length debug calls :
  (length (flat_map (exchanged debug) calls) ≤ 2 * length calls)%nat.
Proof.
  induction calls as [|call calls IH]; simpl; [lia|].
  rewrite length_app. pose proof (exchanged_length debug call). lia.
Qed.

Lemma run_calls_stored_within calls s cid :
  kind s cid = KList →
  Forall (λ call : Call, req_conversationId call.1.1 = cid) calls →
  Z.of_nat (length (stored s cid)) + 2 * Z.of_nat (length calls)
    ≤ _maxMessages (this s) - 1 →
  stored (run_calls calls s) cid =
    stored s cid ++ flat_map (exchanged (_debug (this s))) calls.
Proof.
  intros Hkind Hcid. revert s Hkind.
  induction Hcid as [|[[chatRequest opts] outcome] calls Hhere _ IH];
    intros s Hkind Hfit.
  - simpl. by rewrite app_nil_r.
  - simpl in Hhere. subst cid. rewrite run_calls_cons. simpl in *.
    pose proof (sendMessage_stored_within chatRequest opts outcome s Hkind)
      as Hs1.
    pose proof (exchanged_length (_debug (this s)) (chatRequest, opts, outcome))
      as Hlen.
    pose proof (sendMessage_config chatRequest opts outcome s) as Hconfig.
    pose proof (same_config_maxMessages _ _ Hconfig) as Hmax1.
    pose proof (same_config_debug _ _ Hconfig) as Hdebug1.
    rewrite IH.
    + rewrite Hs1, Hdebug1 by lia. by rewrite <- app_assoc.
    + by rewrite sendMessage_kind_list.
    + rewrite Hs1, Hmax1, length_app by lia. lia.
Qed.

Lemma run_calls_kind calls s cid cid' :
  kind s cid = KList →
  Forall (λ call : Call, req_conversationId call.1.1 = cid) calls →
  kind (run_calls calls s) cid' = kind s cid'.
Proof.
  intros Hkind Hcid. revert s Hkind.
  induction Hcid as [|[[chatRequest opts] outcome] calls Hhere _ IH];
    intros s Hkind; [done|].
  simpl in Hhere. subst cid. rewrite run_calls_cons. simpl.
  rewrite IH by by rewrite sendMessage_kind_list.
  by apply sendMessage_kind_list.
Qed.

(** After such calls, the window still holds everything stored. *)
Lemma run_calls_window_within calls s cid :
  kind s cid = KList →
  Forall (λ call : Call, req_conversationId call.1.1 = cid) calls →
  Z.of_nat (length (stored s cid)) + 2 * Z.of_nat (length calls)
    ≤ _maxMessages (this s) - 1 →
  window (_maxMessages (this (run_calls calls s)))
    (stored (run_calls calls s) cid) =
    stored s cid ++ flat_map (exchanged (_debug (this s))) calls.
Proof.
  intros Hkind Hcid Hfit.
  rewrite (run_calls_stored_within calls s cid Hkind Hcid Hfit).
  apply window_fits.
  rewrite (same_config_maxMessages _ _ (run_calls_config calls s)), length_app.
  pose proof (flat_map_exchanged_length (_debug (this s)) calls). lia.
Qed.

(** X15: calls on one conversation compose.  On a conversation for which
    the cache reads an array or nothing, while there is room for two
    messages per call within [maxMessages - 1], the stored sequence after
    the calls is the one before followed, call by call, by the outgoing
    message and the reply of each call that got to the end of its [try]
    block; calls that threw leave no trace.  [getMessageHistory] returns
    all of it. *)
Theorem X15_calls_on_a_conversation_compose calls s cid :
  kind s cid = KList →
  Forall (λ call : Call, req_conversationId call.1.1 = cid) calls →
  Z.of_nat (length (stored s cid)) + 2 * Z.of_nat (length calls)
    ≤ _maxMessages (this s) - 1 →
  stored (run_calls calls s) cid =
    stored s cid ++ flat_map (exchanged (_debug (this s))) calls ∧
  fst (historyOf cid (run_calls calls s)) =
    Returned (stored s cid ++ flat_map (exchanged (_debug (this s))) calls).
Proof.
  intros Hkind Hcid Hfit. split; [by apply run_calls_stored_within|].
  rewrite historyOf_window by by rewrite (run_calls_kind calls s cid).
  by rewrite run_calls_window_within.
Qed.

(** X15 at a call that returns, one that is rejected and one that returns. *)
Lemma X15_witness :
  let s := fresh_store (assigned (only_key (Some "k"))) in
  let failure :=
    {| fail_message := "timeout"; fail_type := None; fail_param := None;
       fail_code := None |} in
  let calls : list Call :=
    [(ask "c1" "q1", None, answer "a1");
     (ask "c1" "q2", None, Rejected failure);
     (ask "c1" "q2", None, answer "a2")] in
  stored (run_calls calls s) "c1" =
    [said user (Some "u") "q1"; said assistant None "a1";
     said user (Some "u") "q2"; said assistant None "a2"] ∧
  fst (historyOf "c1" (run_calls calls s)) =
    Returned [said user (Some "u") "q1"; said assistant None "a1";
              said user (Some "u") "q2"; said assistant None "a2"].
Proof.
  intros s failure calls.
  apply (X15_calls_on_a_conversation_compose calls s "c1").
  - by vm_compute.
  - repeat constructor.
  - vm_compute. discriminate.
Defined.

(** X16: calls never change the configuration of the instance, and a
    [systemMessage] given with one request is not kept: whatever calls came
    before, the system message of a request that goes out is the
    request's own, or the one the instance had from the start. *)
Theorem X16_configuration_is_never_changed calls chatRequest opts outcome s :
  _systemMessage (this (run_calls calls s)) = _systemMessage (this s) ∧
  _completionParams (this (run_calls calls s)) = _completionParams (this s) ∧
  _maxMessages (this (run_calls calls s)) = _maxMessages (this s) ∧
  _apiKey (this (run_calls calls s)) = _apiKey (this s) ∧
  _debug (this (run_calls calls s)) = _debug (this s) ∧
  (kind (run_calls calls s) (req_conversationId chatRequest) = KList →
   ∃ request,
     sent (snd (sendMessage chatRequest opts outcome (run_calls calls s))) =
       sent (run_calls calls s) ++ [request] ∧
     head (messages request) =
       Some {| m_role := PString "system";
               m_content := PString (default (_systemMessage (this s))
                                       (req_systemMessage chatRequest));
               m_name := PUndefined |}).
Proof.
  pose proof (run_calls_config calls s) as Hconfig.
  unfold same_config in Hconfig.
  repeat (split; [by rewrite Hconfig|]).
  intros Hkind. exists (submitted chatRequest opts (run_calls calls s)).
  split; [by apply sendMessage_sent_list|]. simpl. by rewrite Hconfig.
Qed.

(** X16 after a call that gave its own system message. *)
Lemma X16_witness :
  let s := fresh_store (assigned (only_key (Some "k"))) in
  let calls : list Call :=
    [({| req_name := "u"; req_text := "q1"; req_conversationId := "c1";
         req_role := None; req_systemMessage := Some "Be brief." |},
      None, answer "a1")] in
  ∃ request,
    sent (snd (sendMessage (ask "c1" "q2") None (answer "a2")
                 (run_calls calls s))) =
      sent (run_calls calls s) ++ [request] ∧
    head (messages request) =
      Some (entry "system" PUndefined "You are a helpful assistant.").
Proof.
  intros s calls.
  destruct (X16_configuration_is_never_changed calls (ask "c1" "q2") None
              (answer "a2") s) as (_ & _ & _ & _ & _ & Hsent).
  apply Hsent. by vm_compute.
Defined.

Lemma sendMessage_sent_any chatRequest opts outcome s :
  ∃ requests,
    sent (snd (sendMessage chatRequest opts outcome s)) = sent s ++ requests ∧
    (length requests ≤ 1)%nat.
Proof.
  destruct (decide (kind s (req_conversationId chatRequest) = KList))
    as [Hkind|Hkind].
  - exists [submitted chatRequest opts s].
    split; [by apply sendMessage_sent_list|done].
  - exists []. rewrite app_nil_r.
    split; [by apply sendMessage_sent_refused|simpl; lia].
Qed.

(** X17: every call hands at most one request to the client, after those
    handed over before, and nothing is retried; calls on conversations for
    which the cache reads an array or nothing hand over exactly one each,
    whether they return or throw. *)
Theorem X17_one_request_per_call calls s :
  (∃ requests,
     sent (run_calls calls s) = sent s ++ requests ∧
     (length requests ≤ length calls)%nat) ∧
  (Forall (λ call : Call, kind s (req_conversationId call.1.1) = KList) calls →
   length (sent (run_calls calls s)) = (length (sent s) + length calls)%nat).
Proof.
  split.
  - revert s. induction calls as [|call calls IH]; intros s.
    + exists []. by rewrite app_nil_r.
    + rewrite run_calls_cons.
      destruct (sendMessage_sent_any call.1.1 call.1.2 call.2 s)
        as (first & Hfirst & Hone).
      destruct (IH (snd (sendMessage call.1.1 call.1.2 call.2 s)))
        as (rest & Hrest & Hlen).
      exists (first ++ rest). rewrite Hrest, Hfirst, <- app_assoc.
      split; [done|]. rewrite length_app. simpl. lia.
  - revert s. induction calls as [|call calls IH]; intros s Hkinds;
      [simpl; lia|].
    apply Forall_cons in Hkinds as [Hkind Hkinds].
    rewrite run_calls_cons, IH.
    + rewrite sendMessage_sent_list, length_app by done. simpl. lia.
    + eapply Forall_impl; [exact Hkinds|]. intros call' Hcall'. simpl in *.
      by rewrite sendMessage_kind_list.
Qed.

(** X17 at a call that returns and one that is rejected. *)
Lemma X17_witness :
  let s := fresh_store (assigned (only_key (Some "k"))) in
  let failure :=
    {| fail_message := "timeout"; fail_type := None; fail_param := None;
       fail_code := None |} in
  let calls : list Call :=
    [(ask "c1" "q1", None, answer "a1");
     (ask "c2" "q2", None, Rejected failure)] in
  length (sent (run_calls calls s)) = 2%nat.
Proof.
  intros s failure calls.
  destruct (X17_one_request_per_call calls s) as [_ Hexactly].
  apply Hexactly. repeat constructor.
Defined.

(** X18: the context is sent again with every call.  After calls on a
    conversation for which the cache reads an array or nothing, with room
    for their messages, the next call on it, with options that have no
    [name], [role] or [content] key, sends the system message, the
    messages stored before, the outgoing message and the reply of every
    earlier call that got to the end of its [try] block, in the order of
    the calls, each with its name, role and content, and then its own
    message. *)
Theorem X18_next_call_sends_the_earlier_exchanges
    calls s chatRequest opts outcome :
  kind s (req_conversationId chatRequest) = KList →
  no_message_key opts →
  Forall (λ call : Call,
            req_conversationId call.1.1 = req_conversationId chatRequest)
    calls →
  Z.of_nat (length (stored s (req_conversationId chatRequest)))
    + 2 * Z.of_nat (length calls) ≤ _maxMessages (this s) - 1 →
  ∃ request,
    sent (snd (sendMessage chatRequest opts outcome (run_calls calls s))) =
      sent (run_calls calls s) ++ [request] ∧
    messages request =
      [{| m_role := PString "system";
          m_content := PString (default (_systemMessage (this s))
                                  (req_systemMessage chatRequest));
          m_name := PUndefined |}]
      ++ map reemit
           (stored s (req_conversationId chatRequest)
              ++ flat_map (exchanged (_debug (this s))) calls)
      ++ [{| m_name := PString (req_name chatRequest);
             m_role := PString (role_string
                                  (default user (req_role chatRequest)));
             m_content := PString (req_text chatRequest) |}].
Proof.
  intros Hkind Htyped Hcid Hfit.
  exists (submitted chatRequest opts (run_calls calls s)).
  split.
  { apply sendMessage_sent_list.
    by rewrite (run_calls_kind calls s (req_conversationId chatRequest)). }
  unfold submitted, composed; simpl.
  rewrite (run_calls_window_within calls s _ Hkind Hcid Hfit).
  rewrite (last_entry_typed _ _ _ _ Htyped).
  by rewrite (run_calls_config calls s).
Qed.

(** X18 at two earlier calls, one of them rejected. *)
Lemma X18_witness :
  let s := fresh_store (assigned (only_key (Some "k"))) in
  let failure :=
    {| fail_message := "timeout"; fail_type := None; fail_param := None;
       fail_code := None |} in
  let calls : list Call :=
    [(ask "c1" "q1", None, Rejected failure);
     (ask "c1" "q1", None, answer "a1")] in
  ∃ request,
    sent (snd (sendMessage (ask "c1" "q2") None (answer "a2")
                 (run_calls calls s))) =
      sent (run_calls calls s) ++ [request] ∧
    messages request =
      [entry "system" PUndefined "You are a helpful assistant.";
       entry "user" (PString "u") "q1"; entry "assistant" PUndefined "a1";
       entry "user" (PString "u") "q2"].
Proof.
  intros s failure calls.
  apply (X18_next_call_sends_the_earlier_exchanges calls s (ask "c1" "q2")
           None (answer "a2")).
  - by vm_compute.
  - by vm_compute.
  - repeat constructor.
  - vm_compute. discriminate.
Defined.

(** X19: the per-call options are spread over the message object, so a
    [name], [role] or [content] among them replaces the request's in the
    entry sent last: on a conversation for which the cache reads an array
    or nothing, that entry has the option's value for each of these keys
    the options have and the request's otherwise, and the role ["user"]
    when the role so obtained is falsy. *)
Theorem X19_option_keys_replace_the_last_entry chatRequest opts outcome s :
  kind s (req_conversationId chatRequest) = KList →
  ∃ request,
    sent (snd (sendMessage chatRequest opts outcome s)) = sent s ++ [request] ∧
    last (messages request) =
      Some {| m_name := default (PString (req_name chatRequest))
                          (default ∅ opts !! "name");
              m_role :=
                (let given :=
                   default (PString (role_string
                                       (default user (req_role chatRequest))))
                     (default ∅ opts !! "role") in
                 if truthy given then given else PString "user");
              m_content := default (PString (req_text chatRequest))
                             (default ∅ opts !! "content") |}.
Proof.
  intros Hkind. exists (submitted chatRequest opts s).
  split; [by apply sendMessage_sent_list|].
  unfold submitted, composed; simpl.
  rewrite app_comm_cons, last_snoc. f_equal.
  unfold last_entry, message_object, get_property, spread.
  rewrite !lookup_union.
  rewrite lookup_insert_eq.
  rewrite (lookup_insert_ne _ "name" "role"),
    (lookup_insert_ne _ "content" "role"), lookup_insert_eq by done.
  rewrite (lookup_insert_ne _ "name" "content"), lookup_insert_eq by done.
  destruct (default ∅ opts !! "name"), (default ∅ opts !! "role"),
    (default ∅ opts !! "content"); reflexivity.
Qed.

(** X19 at options with a [content] and an empty [role]. *)
Lemma X19_witness :
  let s := fresh_store (assigned (only_key (Some "k"))) in
  let opts : ChatCompletionOpts :=
    <["content" := PString "override"]> {["role" := PString ""]} in
  ∃ request,
    sent (snd (sendMessage (ask "c1" "q1") (Some opts) (answer "a1") s)) =
      sent s ++ [request] ∧
    last (messages request) = Some (entry "user" (PString "u") "override").
Proof.
  intros s opts.
  apply (X19_option_keys_replace_the_last_entry (ask "c1" "q1") (Some opts)
           (answer "a1") s).
  by vm_compute.
Defined.

(** X20: what an instance holds once built.  The given [systemMessage],
    [maxMessages] and [debug] are kept and the defaults fill in for those
    left out; a given completion parameter replaces the default of the
    same name and the other defaults stay; the [apiKey] is the given one,
    and it is not empty; no conversation is cached. *)
Theorem X20_constructor_keeps_the_given_options opts t :
  constructor opts = inr t →
  apiKey opts = Some (_apiKey t) ∧ _apiKey t ≠ "" ∧
  _systemMessage t = default "You are a helpful assistant." (systemMessage opts) ∧
  _maxMessages t = default 100 (maxMessages opts) ∧
  _debug t = default false (debug opts) ∧
  _messagesCache t = ∅ ∧
  ∀ key,
    _completionParams t !! key =
      match completionParams opts ≫= λ given, given !! key with
      | Some v => Some v
      | None =>
          ({["model" := PString "gpt-3.5-turbo";
             "temperature" := PNumber (Qmake 8 10);
             "top_p" := PNumber (Qmake 1 1);
             "presence_penalty" := PNumber (Qmake 1 1)]}
             : gmap string ParamValue) !! key
      end.
Proof.
  unfold constructor. destruct (apiKey opts) as [[|a key]|] eqn:Hkey; try done.
  intros [= <-]. simpl. rewrite Hkey. repeat split; [done|].
  intros k. unfold spread. rewrite lookup_union.
  destruct (completionParams opts) as [given|]; simpl.
  - destruct (given !! k); simpl; by destruct (_ !! k).
  - rewrite lookup_empty. by destruct (_ !! k).
Qed.

(** X20 at options with a model and a system message. *)
Lemma X20_witness :
  let opts :=
    {| apiKey := Some "k"; debug := None;
       completionParams := Some {["model" := PString "gpt-4"]};
       systemMessage := Some "Be brief."; maxMessages := None |} in
  _systemMessage (assigned opts) = "Be brief." ∧
  _maxMessages (assigned opts) = 100 ∧
  _completionParams (assigned opts) !! "model" = Some (PString "gpt-4") ∧
  _completionParams (assigned opts) !! "temperature" =
    Some (PNumber (Qmake 8 10)).
Proof.
  intros opts.
  destruct (X20_constructor_keeps_the_given_options opts (assigned opts))
    as (_ & _ & Hsys & Hmax & _ & _ & Hparams); [reflexivity|].
  split; [exact Hsys|]. split; [exact Hmax|].
  split; [exact (Hparams "model")|exact (Hparams "temperature")].
Defined.

(** ** Conversation ids that name a property of [Object.prototype] *)

Lemma kind_function s cid n :
  _messagesCache (this s) !! cid = None →
  prototype_of (_messagesCache (this s)) = VObjectPrototype →
  function_length cid = Some n →
  kind s cid = KFunction cid.
Proof.
  intros Hnone Hproto Hlength. unfold kind, property.
  rewrite Hnone, Hproto, Hlength.
  destruct (String.eqb_spec cid "__proto__") as [->|Hne]; [|done].
  by vm_compute in Hlength.
Qed.

(** X21: a conversation id that names a function of [Object.prototype]
    ([toString], [constructor], ...) and has no entry yet cannot be used:
    [sendMessage] throws a [TypeError] from [buildMessage], outside its
    [try] (so not as a [CompletionError]), hands nothing to the client and
    stores no message; the function becomes the entry of the id. *)
Theorem X21_prototype_named_conversation_is_refused
    chatRequest opts outcome s n :
  _messagesCache (this s) !! req_conversationId chatRequest = None →
  prototype_of (_messagesCache (this s)) = VObjectPrototype →
  function_length (req_conversationId chatRequest) = Some n →
  sendMessage chatRequest opts outcome s =
    (Threw (ThrownTypeError
              (if n >? _maxMessages (this s) - 1
               then slice_not_a_function
               else not_iterable)),
     {| this := with_cache (this s)
                  (<[req_conversationId chatRequest :=
                       VFunction (req_conversationId chatRequest)]>
                     (_messagesCache (this s)));
        arrays := arrays s;
        sent := sent s |}).
Proof.
  intros Hnone Hproto Hlength.
  pose proof (kind_function _ _ _ Hnone Hproto Hlength) as Hkind.
  rewrite sendMessage_refused by by rewrite Hkind.
  rewrite (getMessageHistory_function _ _ _ Hkind).
  unfold refused. rewrite Hkind, Hlength. simpl.
  by destruct (n >? _maxMessages (this s) - 1).
Qed.

(** X21 at the id ["constructor"] on a new instance. *)
Lemma X21_witness :
  let s := fresh_store (assigned (only_key (Some "k"))) in
  sendMessage (ask "constructor" "q1") None (answer "a1") s =
    (Threw (ThrownTypeError not_iterable),
     {| this := with_cache (this s) {["constructor" := VFunction "constructor"]};
        arrays := ∅;
        sent := [] |}).
Proof.
  intros s.
  apply (X21_prototype_named_conversation_is_refused (ask "constructor" "q1")
           None (answer "a1") s 1); reflexivity.
Defined.

(** X22: with [debug] on, a response that [JSON.stringify] cannot
    serialise makes the call fail although the client answered: on a
    conversation for which the cache reads an array or nothing, the
    request goes out, [sendMessage] throws a [CompletionError] with the
    message of the [TypeError] and no type, param or code, and no message
    is stored. *)
Theorem X22_debug_log_failure_drops_the_exchange
    chatRequest opts completion m s :
  wf s →
  kind s (req_conversationId chatRequest) = KList →
  _debug (this s) = true →
  stringify_throws completion = Some m →
  fst (sendMessage chatRequest opts (Resolved completion) s) =
    Threw (ThrownCompletionError
             {| err_message := m; err_type := None; err_param := None;
                err_code := None |}) ∧
  (∃ request,
     sent (snd (sendMessage chatRequest opts (Resolved completion) s)) =
       sent s ++ [request]) ∧
  ∀ cid,
    stored (snd (sendMessage chatRequest opts (Resolved completion) s)) cid =
      stored s cid.
Proof.
  intros Hwf Hkind Hdebug Hlog.
  assert (fst (sendMessage chatRequest opts (Resolved completion) s) =
          Threw (ThrownCompletionError
                   {| err_message := m; err_type := None; err_param := None;
                      err_code := None |})) as Hthrew.
  { rewrite (sendMessage_list _ _ _ _ Hkind). simpl. by rewrite Hdebug, Hlog. }
  split; [done|]. split.
  - eexists. by apply sendMessage_sent_list.
  - apply sendMessage_not_returned_preserved; [done|].
    intros res. by rewrite Hthrew.
Qed.

(** X22 at a response that refers to itself. *)
Lemma X22_witness :
  let s := fresh_store (assigned (key_and_debug "k")) in
  fst (sendMessage (ask "c1" "q1") None (circular_answer "a1") s) =
    Threw (ThrownCompletionError
             {| err_message := "Converting circular structure to JSON";
                err_type := None; err_param := None; err_code := None |}) ∧
  (∃ request,
     sent (snd (sendMessage (ask "c1" "q1") None (circular_answer "a1") s)) =
       sent s ++ [request]) ∧
  ∀ cid,
    stored (snd (sendMessage (ask "c1" "q1") None (circular_answer "a1") s))
      cid = stored s cid.
Proof.
  intros s.
  apply (X22_debug_log_failure_drops_the_exchange (ask "c1" "q1") None
           {| data := Some (body "a1"); statusText := "OK";
              stringify_throws := Some "Converting circular structure to JSON" |}
           "Converting circular structure to JSON" s).
  - apply (bool_decide_unpack (wf s)). by vm_compute.
  - by vm_compute.
  - reflexivity.
  - reflexivity.
Defined.
